(** * Hanzo IAM browser SDK: PKCE helpers and browser OAuth2 flows

    A shallow embedding of [pkce.ts] (random strings, base64url, the PKCE
    pair) and of [browser.ts] (class [BrowserIamSdk]: discovery cache,
    callback handling, refresh, silent sign-in, token storage), followed by
    the properties the specification states about them.

    Conventions.
    - A JavaScript string is a [string]; [null]/[undefined] is [None].
    - A [Uint8Array] is a [list byte].
    - [Storage] is a finite map from keys to strings.
    - [Date.now()] is an integer number of milliseconds ([Z]); the range of
      ECMAScript time values (8.64e15 ms) lies inside the exactly
      representable integers, so no rounding is involved.
    - An [async] method is a computation over the world that either returns
      (the promise fulfils) or throws (the promise rejects). *)

From Stdlib Require Import ZArith NArith Lia List Ascii String.
From Stdlib.Strings Require Import Byte.
From Stdlib Require Import DecimalString DecimalZ.
From stdpp Require Import base option strings list_numbers gmap.

Local Open Scope string_scope.
Local Open Scope list_scope.

(* ===================================================================== *)
(** ** Platform strings *)
(* ===================================================================== *)

Module JsString.

(** Truthiness of [string | null]: [null] and the empty string are falsy. *)
Definition truthy (v : option string) : bool :=
  match v with
  | Some s => negb (String.eqb s "")
  | None => false
  end.

(** [String(v)] for [string | undefined]. *)
Definition of_value (v : option string) : string :=
  match v with
  | Some s => s
  | None => "undefined"
  end.

(** [s.replace(/c+$/, "")] on a list of characters: the trailing run of
    [c] is removed. *)
Fixpoint strip_trailing (c : ascii) (s : list ascii) : list ascii :=
  match s with
  | [] => []
  | x :: r =>
      match strip_trailing c r with
      | [] => if Ascii.eqb x c then [] else [x]
      | r' => x :: r'
      end
  end.

(** [s.replace(/a/g, b)] for single characters. *)
Definition replace_all (a b : ascii) (s : list ascii) : list ascii :=
  List.map (fun x => if Ascii.eqb x a then b else x) s.

(** [s.padStart(n, c)] for a single pad character. *)
Definition padStart (n : nat) (c : ascii) (s : list ascii) : list ascii :=
  List.repeat c (n - List.length s) ++ s.

(** [s.slice(0, n)]. *)
Definition slice0 (n : nat) (s : list ascii) : list ascii := firstn n s.

(** [String(n)] for an integer time value: decimal digits, a leading
    minus sign for negatives. *)
Definition of_int (n : Z) : string := NilZero.string_of_int (Z.to_int n).

(** [Number(s)] on decimal integer literals; [None] is [NaN].  Only
    strings written by [of_int] are ever stored under the expiry key by
    this SDK; literals with a fraction, an exponent, a radix prefix or
    surrounding white space are outside the integer model and read as
    [NaN] here. *)
Definition to_number (s : string) : option Z :=
  if String.eqb s "-" then None
  else
    match NilZero.int_of_string s with
    | Some d => Some (Z.of_int d)
    | None => None
    end.

End JsString.

(* ===================================================================== *)
(** ** pkce.ts *)
(* ===================================================================== *)

Module Pkce.
Import JsString.

(** Digit of a radix-36 numeral: [0-9] then [a-z]. *)
Definition digit36 (d : N) : ascii :=
  if (d <? 10)%N then ascii_of_N (48 + d) else ascii_of_N (87 + d).

(** [b.toString(36)] for a byte: one digit below 36, two digits
    otherwise (255 = "73"). *)
Definition toString36 (b : byte) : list ascii :=
  let n := Byte.to_N b in
  if (n <? 36)%N then [digit36 n]
  else [digit36 (n / 36); digit36 (n mod 36)].

(** The pure part of [generateRandomString]: what is computed from the
    array once [crypto.getRandomValues] has filled it. *)
Definition randomString_of (length : nat) (array : list byte) : string :=
  string_of_list_ascii
    (slice0 length
       (List.concat (List.map (fun b => padStart 2 "0" (toString36 b)) array))).

(** The cryptographic random source, as the sequence of bytes it will
    hand out; [crypto.getRandomValues] on a fresh [Uint8Array(length)]
    takes the next [length] of them. *)
Definition getRandomValues (source : nat -> byte) (pos length : nat) : list byte :=
  List.map source (List.seq pos length).

Definition generateRandomString (source : nat -> byte) (pos length : nat)
  : string * nat :=
  (randomString_of length (getRandomValues source pos length), pos + length).

(** [new TextEncoder().encode(plain)]: a [string] is already a sequence
    of bytes. *)
Definition encode (plain : string) : list byte :=
  List.map byte_of_ascii (list_ascii_of_string plain).

(** The base64 alphabet of [btoa]. *)
Definition alphabet : list ascii :=
  list_ascii_of_string
    "ABCDEFGHIJKLMNOPQRSTUVWXYZabcdefghijklmnopqrstuvwxyz0123456789+/".

Definition sextet (tbl : list ascii) (n : N) : ascii :=
  List.nth (N.to_nat n) tbl "A"%char.

(** One group of three bytes as four sextets. *)
Definition quad (tbl : list ascii) (a b c : N) : list ascii :=
  [ sextet tbl (N.shiftr a 2);
    sextet tbl (N.lor (N.shiftl (N.land a 3) 4) (N.shiftr b 4));
    sextet tbl (N.lor (N.shiftl (N.land b 15) 2) (N.shiftr c 6));
    sextet tbl (N.land c 63) ].

(** [btoa(binary)] where [binary] holds one character per byte: standard
    base64 with [=] padding. *)
Fixpoint btoa (bytes : list byte) : list ascii :=
  match bytes with
  | [] => []
  | [a] => firstn 2 (quad alphabet (Byte.to_N a) 0 0) ++ ["="; "="]%char
  | [a; b] => firstn 3 (quad alphabet (Byte.to_N a) (Byte.to_N b) 0) ++ ["="%char]
  | a :: b :: c :: rest =>
      quad alphabet (Byte.to_N a) (Byte.to_N b) (Byte.to_N c) ++ btoa rest
  end.

Definition base64UrlEncode (buffer : list byte) : string :=
  string_of_list_ascii
    (strip_trailing "="
       (replace_all "/" "_" (replace_all "+" "-" (btoa buffer)))).

Record PkceChallenge := {
  codeVerifier : string;
  codeChallenge : string;
}.

Section WithDigest.
(** [crypto.subtle.digest("SHA-256", _)], a primitive of the platform. *)
Variable SHA256 : list byte -> list byte.

Definition sha256 (plain : string) : list byte := SHA256 (encode plain).

Definition generatePkceChallenge (source : nat -> byte) (pos : nat)
  : PkceChallenge * nat :=
  let '(verifier, pos') := generateRandomString source pos 64 in
  let hash := sha256 verifier in
  ({| codeVerifier := verifier; codeChallenge := base64UrlEncode hash |}, pos').
End WithDigest.

Definition generateState (source : nat -> byte) (pos : nat) : string * nat :=
  generateRandomString source pos 32.

(** *** RFC 4648 section 5, written from the specification's words:
    "the URL-safe, unpadded base64 encoding". *)
Definition url_alphabet : list ascii :=
  list_ascii_of_string
    "ABCDEFGHIJKLMNOPQRSTUVWXYZabcdefghijklmnopqrstuvwxyz0123456789-_".

Fixpoint base64url_unpadded (bytes : list byte) : list ascii :=
  match bytes with
  | [] => []
  | [a] => firstn 2 (quad url_alphabet (Byte.to_N a) 0 0)
  | [a; b] => firstn 3 (quad url_alphabet (Byte.to_N a) (Byte.to_N b) 0)
  | a :: b :: c :: rest =>
      quad url_alphabet (Byte.to_N a) (Byte.to_N b) (Byte.to_N c)
        ++ base64url_unpadded rest
  end.

(** *** Views used to state the properties *)

(** The two substitutions of [base64UrlEncode] on one character. *)
Definition to_url (x : ascii) : ascii :=
  let y := if Ascii.eqb x "+" then "-"%char else x in
  if Ascii.eqb y "/" then "_"%char else y.

(** What [generateRandomString] makes of one byte. *)
Definition two_digits (b : byte) : list ascii := padStart 2 "0" (toString36 b).

Definition digits (array : list byte) : list ascii :=
  List.concat (List.map two_digits array).

Definition digit_value (c : ascii) : N :=
  let n := N_of_ascii c in
  if (n <? 58)%N then (n - 48)%N else (n - 87)%N.

Definition byte_of_digits (s : list ascii) : option byte :=
  match s with
  | [h; l] => Byte.of_N (digit_value h * 36 + digit_value l)
  | _ => None
  end.

End Pkce.

(* ===================================================================== *)
(** ** browser.ts: data *)
(* ===================================================================== *)

Module Browser.
Import JsString.

(** *** Storage keys *)
Definition STORAGE_PREFIX : string := "hanzo_iam_".
Definition KEY_STATE : string := STORAGE_PREFIX ++ "state".
Definition KEY_CODE_VERIFIER : string := STORAGE_PREFIX ++ "code_verifier".
Definition KEY_ACCESS_TOKEN : string := STORAGE_PREFIX ++ "access_token".
Definition KEY_REFRESH_TOKEN : string := STORAGE_PREFIX ++ "refresh_token".
Definition KEY_ID_TOKEN : string := STORAGE_PREFIX ++ "id_token".
Definition KEY_EXPIRES_AT : string := STORAGE_PREFIX ++ "expires_at".

(** The members of [BrowserIamConfig] the flows read; [storage] is part
    of the world below. *)
Record BrowserIamConfig := {
  serverUrl : string;
  clientId : string;
  redirectUri : string;
  scope : option string;
}.

(** Modelled from the spec: [types.ts], which declares [OidcDiscovery], is
    not among the sources.  The three endpoints are those the spec's
    DiscoveryDocument names.  The value is the result of an unchecked
    cast of parsed JSON ([(await res.json()) as OidcDiscovery]), so at run
    time a member can be absent: [None] is [undefined]. *)
Record OidcDiscovery := {
  authorization_endpoint : option string;
  token_endpoint : option string;
  userinfo_endpoint : option string;
}.

(** Modelled from the spec: [types.ts], which declares [TokenResponse], is
    not among the sources.  The members are those [storeTokens] reads:
    [access_token] is required, the other three are optional;
    [expires_in] is a lifetime in whole seconds. *)
Record TokenResponse := {
  access_token : string;
  refresh_token : option string;
  id_token : option string;
  expires_in : option Z;
}.

(** A [URL] object: everything but the query, and [searchParams] as the
    ordered list of its pairs. *)
Record URL := {
  url_base : string;
  searchParams : list (string * string);
}.

(** [url.searchParams.get(name)]: the first value, or [null]. *)
Fixpoint searchParams_get (name : string) (ps : list (string * string))
  : option string :=
  match ps with
  | [] => None
  | (k, v) :: r => if String.eqb k name then Some v else searchParams_get name r
  end.

(** [url.searchParams.set(name, value)]: the first pair named [name]
    takes [value] and the later ones are dropped; without one, the pair
    is appended. *)
Fixpoint searchParams_set (name value : string) (ps : list (string * string))
  : list (string * string) :=
  match ps with
  | [] => [(name, value)]
  | (k, v) :: r =>
      if String.eqb k name
      then (k, value) :: List.filter (fun p => negb (String.eqb (fst p) name)) r
      else (k, v) :: searchParams_set name value r
  end.

Definition set_param (name value : string) (u : URL) : URL :=
  {| url_base := url_base u;
     searchParams := searchParams_set name value (searchParams u) |}.

(** What [fetch] is called with.  A form body is kept as the pairs given
    to [URLSearchParams]. *)
Record Request := {
  req_method : string;
  req_url : string;
  req_headers : list (string * string);
  req_body : list (string * string);
}.

(** A [Response]: [body] is [None] when reading the body fails. *)
Record Response := {
  status : Z;
  body : option string;
}.

(** [res.ok]: a status in the range 200-299. *)
Definition ok (res : Response) : bool :=
  (200 <=? status res)%Z && (status res <=? 299)%Z.

(** One round trip: the time it took and the response, [None] when
    [fetch] rejects (network failure). *)
Record RoundTrip := {
  took : N;
  answer : option Response;
}.

(** The browser and the network, as far as this class uses them.  None
    of it belongs to the repository. *)
Record Platform := {
  (** [crypto.subtle.digest("SHA-256", _)] *)
  SHA256 : list byte -> list byte;
  (** the bytes [crypto.getRandomValues] will produce *)
  random_source : nat -> byte;
  (** [new URL(s)]; [None] when it throws *)
  parseURL : string -> option URL;
  (** [url.toString()] *)
  serializeURL : URL -> string;
  (** the answer to a request, given the requests sent before it *)
  network : list Request -> Request -> RoundTrip;
  (** [JSON.parse] of a body viewed at the declared type; [None] when
      [res.json()] rejects *)
  json_discovery : string -> option OidcDiscovery;
  json_tokens : string -> option TokenResponse;
}.

(** Everything the methods read and write: the [Storage] object and the
    [discoveryCache] field of the instance, the clock, the requests sent
    so far (oldest first), how many random bytes were drawn, and
    [window.location.href]. *)
Record World := {
  storage : gmap string string;
  discoveryCache : option OidcDiscovery;
  now : Z;
  sent : list Request;
  drawn : nat;
  location_href : string;
}.

Definition with_storage (f : gmap string string -> gmap string string)
    (w : World) : World :=
  {| storage := f (storage w); discoveryCache := discoveryCache w;
     now := now w; sent := sent w; drawn := drawn w;
     location_href := location_href w |}.

Definition with_cache (d : option OidcDiscovery) (w : World) : World :=
  {| storage := storage w; discoveryCache := d;
     now := now w; sent := sent w; drawn := drawn w;
     location_href := location_href w |}.

Definition with_drawn (n : nat) (w : World) : World :=
  {| storage := storage w; discoveryCache := discoveryCache w;
     now := now w; sent := sent w; drawn := n;
     location_href := location_href w |}.

Definition after_request (req : Request) (dt : N) (w : World) : World :=
  {| storage := storage w; discoveryCache := discoveryCache w;
     now := (now w + Z.of_N dt)%Z; sent := sent w ++ [req]; drawn := drawn w;
     location_href := location_href w |}.

(** *** Storage interface *)
Definition getItem (k : string) (w : World) : option string := storage w !! k.
Definition setItem (k v : string) (w : World) : World := with_storage (insert k v) w.
Definition removeItem (k : string) (w : World) : World := with_storage (delete k) w.

(** *** Exceptions
    One constructor per [throw] of the class, with the data its message
    interpolates, and one per platform call that can throw. *)
Inductive Error :=
| DiscoveryFailed (st : Z)               (* "OIDC discovery failed: <status>" *)
| OAuthError (desc : string)             (* "OAuth error: <desc>" *)
| MissingCode                            (* "Missing authorization code in callback URL" *)
| StateMismatch                          (* "OAuth state mismatch - possible CSRF attack" *)
| MissingVerifier                        (* "Missing PKCE code verifier ..." *)
| TokenExchangeFailed (st : Z) (text : string)
| TokenRefreshFailed (st : Z) (text : string)
| NoRefreshToken                         (* "No refresh token available" *)
| InvalidURL                             (* TypeError of [new URL] *)
| FetchRejected                          (* TypeError of [fetch] *)
| BodyRejected.                          (* rejection of [res.json()] *)

Inductive Outcome (A : Type) :=
| Returned (a : A)
| Thrown (e : Error).
Arguments Returned {A} a.
Arguments Thrown {A} e.

(** A method body: runs in a world, returns or throws, leaves a world. *)
Definition M (A : Type) : Type := World -> Outcome A * World.

Definition ret {A} (a : A) : M A := fun w => (Returned a, w).
Definition throw {A} (e : Error) : M A := fun w => (Thrown e, w).
Definition bind {A B} (c : M A) (k : A -> M B) : M B :=
  fun w =>
    match c w with
    | (Returned a, w') => k a w'
    | (Thrown e, w') => (Thrown e, w')
    end.
Definition try_catch {A} (c : M A) (h : Error -> M A) : M A :=
  fun w =>
    match c w with
    | (Returned a, w') => (Returned a, w')
    | (Thrown e, w') => h e w'
    end.
Definition read {A} (f : World -> A) : M A := fun w => (Returned (f w), w).
Definition write (f : World -> World) : M unit := fun w => (Returned tt, f w).

Declare Scope js_scope.
Delimit Scope js_scope with js.
Notation "x <- c ;; k" := (bind c (fun x => k))
  (at level 100, c at next level, right associativity) : js_scope.
Notation "c ;;; k" := (bind c (fun _ => k))
  (at level 100, right associativity) : js_scope.

(* ===================================================================== *)
(** ** browser.ts: class [BrowserIamSdk] *)
(* ===================================================================== *)

Section Sdk.
Variable P : Platform.
Variable config : BrowserIamConfig.
Local Open Scope js_scope.

(** *** Platform calls *)

(** [await fetch(url, init)]: the request is recorded, the clock moves
    by the time the round trip took. *)
Definition fetch (req : Request) : M Response :=
  fun w =>
    let rt := network P (sent w) req in
    let w' := after_request req (took rt) w in
    match answer rt with
    | Some res => (Returned res, w')
    | None => (Thrown FetchRejected, w')
    end.

(** [(await res.json()) as T] *)
Definition res_json {A} (parse : string -> option A) (res : Response) : M A :=
  match body res with
  | Some t =>
      match parse t with
      | Some v => ret v
      | None => throw BodyRejected
      end
  | None => throw BodyRejected
  end.

(** [await res.text().catch(() => "")] *)
Definition res_text_or_empty (res : Response) : string :=
  default "" (body res).

(** [new URL(s)] *)
Definition new_URL (s : string) : M URL :=
  match parseURL P s with
  | Some u => ret u
  | None => throw InvalidURL
  end.

(** Where the class draws from [pkce.ts]: the position in the random
    source is part of the world. *)
Definition generatePkceChallenge : M Pkce.PkceChallenge :=
  fun w =>
    let '(pk, n) :=
      Pkce.generatePkceChallenge (SHA256 P) (random_source P) (drawn w) in
    (Returned pk, with_drawn n w).

Definition generateState : M string :=
  fun w =>
    let '(s, n) := Pkce.generateState (random_source P) (drawn w) in
    (Returned s, with_drawn n w).

(** *** OIDC discovery *)

(** [this.config.serverUrl.replace(/\/+$/, "")] *)
Definition baseUrl : string :=
  string_of_list_ascii
    (strip_trailing "/" (list_ascii_of_string (serverUrl config))).

Definition getDiscovery : M OidcDiscovery :=
  cache <- read discoveryCache ;;
  match cache with
  | Some d => ret d
  | None =>
      res <- fetch {| req_method := "GET";
                      req_url := baseUrl ++ "/.well-known/openid-configuration";
                      req_headers := [("Accept", "application/json")];
                      req_body := [] |} ;;
      if negb (ok res) then throw (DiscoveryFailed (status res))
      else
        d <- res_json (json_discovery P) res ;;
        write (with_cache (Some d)) ;;;
        ret d
  end.

(** *** Token management *)

Definition storeTokens (tokens : TokenResponse) (w : World) : World :=
  let w := setItem KEY_ACCESS_TOKEN (access_token tokens) w in
  let w :=
    if truthy (refresh_token tokens)
    then setItem KEY_REFRESH_TOKEN (of_value (refresh_token tokens)) w
    else w in
  let w :=
    if truthy (id_token tokens)
    then setItem KEY_ID_TOKEN (of_value (id_token tokens)) w
    else w in
  match expires_in tokens with
  | Some e =>
      if (e =? 0)%Z then w
      else
        let expiresAt := (now w + e * 1000)%Z in
        setItem KEY_EXPIRES_AT (of_int expiresAt) w
  | None => w
  end.

Definition getAccessToken (w : World) : option string := getItem KEY_ACCESS_TOKEN w.
Definition getRefreshToken (w : World) : option string := getItem KEY_REFRESH_TOKEN w.
Definition getIdToken (w : World) : option string := getItem KEY_ID_TOKEN w.

(** [Date.now() >= Number(expiresAt)]; a comparison with [NaN] is false. *)
Definition isTokenExpired (w : World) : bool :=
  let expiresAt := getItem KEY_EXPIRES_AT w in
  if negb (truthy expiresAt) then true
  else
    match to_number (of_value expiresAt) with
    | Some n => (n <=? now w)%Z
    | None => false
    end.

Definition clearTokens (w : World) : World :=
  removeItem KEY_CODE_VERIFIER
    (removeItem KEY_STATE
       (removeItem KEY_EXPIRES_AT
          (removeItem KEY_ID_TOKEN
             (removeItem KEY_REFRESH_TOKEN
                (removeItem KEY_ACCESS_TOKEN w))))).

(** *** Callback handling *)

Definition form_headers : list (string * string) :=
  [("Content-Type", "application/x-www-form-urlencoded")].

Definition handleCallback (callbackUrl : option string) : M TokenResponse :=
  href <- read location_href ;;
  url <- new_URL (default href callbackUrl) ;;
  let code := searchParams_get "code" (searchParams url) in
  let state := searchParams_get "state" (searchParams url) in
  let error := searchParams_get "error" (searchParams url) in
  if truthy error then
    let desc :=
      default (of_value error)
              (searchParams_get "error_description" (searchParams url)) in
    throw (OAuthError desc)
  else if negb (truthy code) then throw MissingCode
  else
    savedState <- read (getItem KEY_STATE) ;;
    if negb (truthy savedState) || negb (bool_decide (savedState = state))
    then throw StateMismatch
    else
      codeVerifier <- read (getItem KEY_CODE_VERIFIER) ;;
      if negb (truthy codeVerifier) then throw MissingVerifier
      else
        (* Clean up one-time state *)
        write (removeItem KEY_STATE) ;;;
        write (removeItem KEY_CODE_VERIFIER) ;;;
        discovery <- getDiscovery ;;
        res <- fetch {| req_method := "POST";
                        req_url := of_value (token_endpoint discovery);
                        req_headers := form_headers;
                        req_body :=
                          [ ("grant_type", "authorization_code");
                            ("client_id", clientId config);
                            ("code", of_value code);
                            ("redirect_uri", redirectUri config);
                            ("code_verifier", of_value codeVerifier) ] |} ;;
        if negb (ok res)
        then throw (TokenExchangeFailed (status res) (res_text_or_empty res))
        else
          tokens <- res_json (json_tokens P) res ;;
          write (storeTokens tokens) ;;;
          ret tokens.

(** *** Token refresh *)

Definition refreshAccessToken : M TokenResponse :=
  refreshToken <- read (getItem KEY_REFRESH_TOKEN) ;;
  if negb (truthy refreshToken) then throw NoRefreshToken
  else
    discovery <- getDiscovery ;;
    res <- fetch {| req_method := "POST";
                    req_url := of_value (token_endpoint discovery);
                    req_headers := form_headers;
                    req_body :=
                      [ ("grant_type", "refresh_token");
                        ("client_id", clientId config);
                        ("refresh_token", of_value refreshToken) ] |} ;;
    if negb (ok res)
    then throw (TokenRefreshFailed (status res) (res_text_or_empty res))
    else
      tokens <- res_json (json_tokens P) res ;;
      write (storeTokens tokens) ;;;
      ret tokens.

Definition getValidAccessToken : M (option string) :=
  token <- read getAccessToken ;;
  expired <- read isTokenExpired ;;
  if truthy token && negb expired then ret token
  else
    refreshToken <- read getRefreshToken ;;
    if truthy refreshToken then
      try_catch
        (tokens <- refreshAccessToken ;; ret (Some (access_token tokens)))
        (fun _ => ret None)
    else ret None.

(** *** Silent signin (iframe) *)

(** The promise returned by [signinSilent] together with the resources
    its executor creates: [settled] is [None] while the promise is
    pending and [Some v] once [resolve(v)] has been called, where [v] is
    the token set or [None] for [null]. *)
Record SilentAttempt := {
  iframe_src : string;
  settled : option (option TokenResponse);
  timer_armed : bool;
  iframe_attached : bool;
}.

(** [resolve(v)]: only the first call settles a promise. *)
Definition resolve (v : option TokenResponse) (a : SilentAttempt) : SilentAttempt :=
  match settled a with
  | Some _ => a
  | None =>
      {| iframe_src := iframe_src a; settled := Some v;
         timer_armed := timer_armed a; iframe_attached := iframe_attached a |}
  end.

(** The closure [cleanup]: [clearTimeout], [iframe.remove()] and the two
    [removeItem] calls. *)
Definition cleanup (a : SilentAttempt) (w : World) : SilentAttempt * World :=
  ({| iframe_src := iframe_src a; settled := settled a;
      timer_armed := false; iframe_attached := false |},
   removeItem KEY_CODE_VERIFIER (removeItem KEY_STATE w)).

(** What [iframe.contentWindow?.location.href] gives inside the load
    listener: an exception when the frame is on another origin,
    otherwise a string or [undefined]. *)
Inductive IframeLocation :=
| CrossOrigin
| Readable (href : option string).

Inductive SilentEvent :=
| TimerFired
| IframeLoaded (loc : IframeLocation).

(** Everything before the promise is built, then the executor up to
    [document.body.appendChild(iframe)]. *)
Definition signinSilent_start : M SilentAttempt :=
  discovery <- getDiscovery ;;
  pk <- generatePkceChallenge ;;
  state <- generateState ;;
  write (setItem KEY_STATE state) ;;;
  write (setItem KEY_CODE_VERIFIER (Pkce.codeVerifier pk)) ;;;
  url <- new_URL (of_value (authorization_endpoint discovery)) ;;
  let url := set_param "client_id" (clientId config) url in
  let url := set_param "response_type" "code" url in
  let url := set_param "redirect_uri" (redirectUri config) url in
  let url := set_param "scope" (default "openid profile email" (scope config)) url in
  let url := set_param "state" state url in
  let url := set_param "code_challenge" (Pkce.codeChallenge pk) url in
  let url := set_param "code_challenge_method" "S256" url in
  let url := set_param "prompt" "none" url in
  ret {| iframe_src := serializeURL P url; settled := None;
         timer_armed := true; iframe_attached := true |}.

(** The [setTimeout] callback. *)
Definition on_timeout (a : SilentAttempt) (w : World) : SilentAttempt * World :=
  let '(a, w) := cleanup a w in
  (resolve None a, w).

(** The ["load"] listener.  [handleCallback] is run to completion here:
    [cleanup] has cleared the timer, so nothing else of this attempt
    can run in between. *)
Definition on_load (loc : IframeLocation) (a : SilentAttempt) (w : World)
  : SilentAttempt * World :=
  match loc with
  | Readable (Some iframeUrl) =>
      if truthy (Some iframeUrl) && String.prefix (redirectUri config) iframeUrl
      then
        let '(a, w) := cleanup a w in
        match handleCallback (Some iframeUrl) w with
        | (Returned tokens, w') => (resolve (Some tokens) a, w')
        | (Thrown _, w') => (resolve None a, w')
        end
      else (a, w)
  | Readable None => (a, w)
  | CrossOrigin =>
      (* Cross-origin or error: silent auth failed *)
      let '(a, w) := cleanup a w in
      (resolve None a, w)
  end.

(** The event loop hands an event to its callback: a cleared timer does
    not fire, a removed iframe does not load. *)
Definition deliver (ev : SilentEvent) (aw : SilentAttempt * World)
  : SilentAttempt * World :=
  let '(a, w) := aw in
  match ev with
  | TimerFired => if timer_armed a then on_timeout a w else (a, w)
  | IframeLoaded loc => if iframe_attached a then on_load loc a w else (a, w)
  end.

(** [signinSilent] against the events that follow, in the order they
    occur; the time-out is the event [TimerFired].  The result is the
    state of the promise: [None] pending, [Some None] resolved with
    [null], [Some (Some t)] resolved with the token set [t]. *)
Definition signinSilent (events : list SilentEvent)
  : M (option (option TokenResponse)) :=
  a <- signinSilent_start ;;
  fun w =>
    let '(a', w') := List.fold_left (fun aw ev => deliver ev aw) events (a, w) in
    (Returned (settled a'), w').

(** *** Views of the methods used to state their properties *)

(** What the guards of [handleCallback] decide on a parsed callback URL
    and the storage, in the order of the source: the exception thrown,
    or [None] when every guard is passed. *)
Definition validation (url : URL) (w : World) : option Error :=
  let code := searchParams_get "code" (searchParams url) in
  let state := searchParams_get "state" (searchParams url) in
  let error := searchParams_get "error" (searchParams url) in
  if truthy error then
    Some (OAuthError
            (default (of_value error)
                     (searchParams_get "error_description" (searchParams url))))
  else if negb (truthy code) then Some MissingCode
  else if negb (truthy (getItem KEY_STATE w))
          || negb (bool_decide (getItem KEY_STATE w = state))
  then Some StateMismatch
  else if negb (truthy (getItem KEY_CODE_VERIFIER w)) then Some MissingVerifier
  else None.

(** The exchange: [handleCallback] from [getDiscovery()] on. *)
Definition exchangeCode (code codeVerifier : string) : M TokenResponse :=
  discovery <- getDiscovery ;;
  res <- fetch {| req_method := "POST";
                  req_url := of_value (token_endpoint discovery);
                  req_headers := form_headers;
                  req_body :=
                    [ ("grant_type", "authorization_code");
                      ("client_id", clientId config);
                      ("code", code);
                      ("redirect_uri", redirectUri config);
                      ("code_verifier", codeVerifier) ] |} ;;
  if negb (ok res)
  then throw (TokenExchangeFailed (status res) (res_text_or_empty res))
  else
    tokens <- res_json (json_tokens P) res ;;
    write (storeTokens tokens) ;;;
    ret tokens.

(** The request [getDiscovery] sends when nothing is cached. *)
Definition discovery_request : Request :=
  {| req_method := "GET";
     req_url := baseUrl ++ "/.well-known/openid-configuration";
     req_headers := [("Accept", "application/json")];
     req_body := [] |}.

End Sdk.

(** The same world at another reading of the clock. *)
Definition at_time (t : Z) (w : World) : World :=
  {| storage := storage w; discoveryCache := discoveryCache w;
     now := t; sent := sent w; drawn := drawn w;
     location_href := location_href w |}.

(** The keys [storeTokens] writes. *)
Definition session_keys : list string :=
  [KEY_ACCESS_TOKEN; KEY_REFRESH_TOKEN; KEY_ID_TOKEN; KEY_EXPIRES_AT].

(** A silent attempt that has not been resolved with a token set. *)
Definition not_tokens (a : SilentAttempt) : Prop :=
  settled a = None \/ settled a = Some None.

(** Token-endpoint requests, by grant. *)
Definition has_grant (grant : string) (req : Request) : bool :=
  bool_decide (searchParams_get "grant_type" (req_body req) = Some grant).

Definition count_grant (grant : string) (reqs : list Request) : nat :=
  List.length (List.filter (has_grant grant) reqs).

End Browser.

(* ===================================================================== *)
(** ** A concrete browser, to run the model on examples *)
(* ===================================================================== *)

Module Demo.
Import JsString Browser.

(** The part of [s] before the first [c], and the part after it if [c]
    occurs. *)
Fixpoint cut (c : ascii) (s : list ascii) : list ascii * option (list ascii) :=
  match s with
  | [] => ([], None)
  | x :: r =>
      if Ascii.eqb x c then ([], Some r)
      else let '(h, t) := cut c r in (x :: h, t)
  end.

Fixpoint fields (c : ascii) (fuel : nat) (s : list ascii) : list (list ascii) :=
  match fuel with
  | O => [s]
  | S fuel' =>
      match cut c s with
      | (h, Some t) => h :: fields c fuel' t
      | (h, None) => [h]
      end
  end.

Definition pair_of (f : list ascii) : string * string :=
  let '(k, v) := cut "=" f in
  (string_of_list_ascii k, string_of_list_ascii (default [] v)).

(** A URL parser for absolute [https:] URLs without escapes or
    fragment: the query is split at [&] and [=]. *)
Definition parseURL (s : string) : option URL :=
  if String.prefix "https://" s then
    let '(b, q) := cut "?" (list_ascii_of_string s) in
    Some {| url_base := string_of_list_ascii b;
            searchParams :=
              match q with
              | Some q => List.map pair_of (fields "&" (List.length q) q)
              | None => []
              end |}
  else None.

Definition serializeURL (u : URL) : string :=
  (url_base u ++ "?" ++
     String.concat "&"
       (List.map (fun p : string * string => fst p ++ "=" ++ snd p) (searchParams u)))%string.

Definition discovery : OidcDiscovery :=
  {| authorization_endpoint := Some "https://iam.example/authorize";
     token_endpoint := Some "https://iam.example/token";
     userinfo_endpoint := Some "https://iam.example/userinfo" |}.

Definition no_endpoints : OidcDiscovery :=
  {| authorization_endpoint := None;
     token_endpoint := None;
     userinfo_endpoint := None |}.

Definition tokens : TokenResponse :=
  {| access_token := "at-2";
     refresh_token := Some "rt-2";
     id_token := None;
     expires_in := Some 3600%Z |}.

(** A token response with an access token and nothing else. *)
Definition bearer_only : TokenResponse :=
  {| access_token := "at-3";
     refresh_token := None;
     id_token := None;
     expires_in := None |}.

(** Bodies are named here rather than spelled out as JSON text; ["{}"]
    is the empty object. *)
Definition json_discovery (text : string) : option OidcDiscovery :=
  if String.eqb text "discovery document" then Some discovery
  else if String.eqb text "{}" then Some no_endpoints
  else None.

Definition json_tokens (text : string) : option TokenResponse :=
  if String.eqb text "token response" then Some tokens else None.

Definition config : BrowserIamConfig :=
  {| serverUrl := "https://iam.example/";
     clientId := "my-app";
     redirectUri := "https://app/cb";
     scope := None |}.

Definition well_known : string :=
  "https://iam.example/.well-known/openid-configuration".

(** A provider that answers every request with success. *)
Definition healthy (_ : list Request) (req : Request) : RoundTrip :=
  if String.eqb (req_url req) well_known
  then {| took := 20; answer := Some {| status := 200; body := Some "discovery document" |} |}
  else {| took := 35; answer := Some {| status := 200; body := Some "token response" |} |}.

(** A provider whose token endpoint refuses. *)
Definition refusing (_ : list Request) (req : Request) : RoundTrip :=
  if String.eqb (req_url req) well_known
  then {| took := 20; answer := Some {| status := 200; body := Some "discovery document" |} |}
  else {| took := 35; answer := Some {| status := 400; body := Some "invalid_grant" |} |}.

(** A provider that is down. *)
Definition down (_ : list Request) (_ : Request) : RoundTrip :=
  {| took := 5; answer := Some {| status := 503; body := Some "" |} |}.

(** A provider whose metadata document is the empty object. *)
Definition bare (_ : list Request) (_ : Request) : RoundTrip :=
  {| took := 20; answer := Some {| status := 200; body := Some "{}" |} |}.

Definition platform (net : list Request -> Request -> RoundTrip) : Platform :=
  {| SHA256 := fun bytes => firstn 32 (bytes ++ List.repeat x00 32);
     random_source := fun i => if Nat.even i then x2a else xc8;
     Browser.parseURL := parseURL;
     Browser.serializeURL := serializeURL;
     network := net;
     Browser.json_discovery := json_discovery;
     Browser.json_tokens := json_tokens |}.

(** The browser talking to the healthy provider. *)
Definition browser : Platform := platform healthy.

Definition fresh : World :=
  {| storage := ∅; discoveryCache := None; now := 1700000000000;
     sent := []; drawn := 0; location_href := "https://app/" |}.

(** A world with a pending request and an expired session. *)
Definition pending : World :=
  {| storage :=
       <[KEY_STATE := "s-1"]>
         (<[KEY_CODE_VERIFIER := "v-1"]>
            (<[KEY_ACCESS_TOKEN := "at-1"]>
               (<[KEY_REFRESH_TOKEN := "rt-1"]>
                  (<[KEY_EXPIRES_AT := "1600000000000"]> ∅))));
     discoveryCache := None; now := 1700000000000;
     sent := []; drawn := 0; location_href := "https://app/" |}.

(** The state value the first silent attempt of [fresh] generates: the
    verifier takes the first 64 random bytes, the state the next 32. *)
Definition silent_state : string :=
  fst (Pkce.generateState (random_source browser) 64).

Definition silent_callback : string :=
  ("https://app/cb?code=abc&state=" ++ silent_state)%string.

End Demo.

(* ===================================================================== *)
(** ** browser.ts: the remaining methods of [BrowserIamSdk] *)
(* ===================================================================== *)

Module Flows.
Import JsString Browser.

(** [window.location.href = href] *)
Definition navigate (href : string) (w : World) : World :=
  {| storage := storage w; discoveryCache := discoveryCache w;
     now := now w; sent := sent w; drawn := drawn w;
     location_href := href |}.

(** Loading a page in the same tab: the [Storage] object survives, the
    SDK instance is a new one, so its [discoveryCache] is empty. *)
Definition reload (w : World) : World := with_cache None w.

(** The loop over [Object.entries(params.additionalParams)]: the entries
    in enumeration order, each one [set] on the URL. *)
Definition set_all (entries : list (string * string)) (url : URL) : URL :=
  List.fold_left (fun u kv => set_param (fst kv) (snd kv) u) entries url.

(** What the promise of [signinPopup] can be rejected with. *)
Inductive PopupError :=
| PopupBlocked                 (* "Failed to open login popup - blocked by browser?" *)
| PopupClosed                  (* "Login popup was closed before completing" *)
| CallbackRejected (e : Error).

(** The promise of [signinPopup] and what its executor holds:
    [popup_settled] is [None] while pending. *)
Record PopupAttempt := {
  popup_url : string;
  popup_settled : option (PopupError + TokenResponse);
  interval_live : bool;
  popup_open : bool;
}.

(** What one tick of the interval finds: [popup.closed], an exception on
    reading [popup.location.href], or the string read. *)
Inductive PopupView :=
| ViewClosed
| ViewCrossOrigin
| ViewAt (href : string).

(** Only the first [resolve] or [reject] settles the promise. *)
Definition settle (v : PopupError + TokenResponse) (a : PopupAttempt) : PopupAttempt :=
  match popup_settled a with
  | Some _ => a
  | None =>
      {| popup_url := popup_url a; popup_settled := Some v;
         interval_live := interval_live a; popup_open := popup_open a |}
  end.

Definition clearInterval (a : PopupAttempt) : PopupAttempt :=
  {| popup_url := popup_url a; popup_settled := popup_settled a;
     interval_live := false; popup_open := popup_open a |}.

Definition popup_close (a : PopupAttempt) : PopupAttempt :=
  {| popup_url := popup_url a; popup_settled := popup_settled a;
     interval_live := interval_live a; popup_open := false |}.

(** What [getUserInfo] can throw: its own two errors, or whatever the
    calls it awaits throw. *)
Inductive UserInfoError :=
| NoValidAccessToken           (* "No valid access token - user must log in" *)
| UserinfoFailed (st : Z)      (* "Userinfo fetch failed (<status>)" *)
| Rethrown (e : Error).

Section Sdk.
Variable P : Platform.
Variable config : BrowserIamConfig.
Local Open Scope js_scope.

(** *** Login redirect (PKCE) *)

Definition signinRedirect (additionalParams : option (list (string * string)))
  : M unit :=
  discovery <- getDiscovery P config ;;
  pk <- generatePkceChallenge P ;;
  state <- generateState P ;;
  write (setItem KEY_STATE state) ;;;
  write (setItem KEY_CODE_VERIFIER (Pkce.codeVerifier pk)) ;;;
  url <- new_URL P (of_value (authorization_endpoint discovery)) ;;
  let url := set_param "client_id" (clientId config) url in
  let url := set_param "response_type" "code" url in
  let url := set_param "redirect_uri" (redirectUri config) url in
  let url := set_param "scope" (default "openid profile email" (scope config)) url in
  let url := set_param "state" state url in
  let url := set_param "code_challenge" (Pkce.codeChallenge pk) url in
  let url := set_param "code_challenge_method" "S256" url in
  let url :=
    match additionalParams with
    | Some entries => set_all entries url
    | None => url
    end in
  write (navigate (serializeURL P url)).

(** *** Popup signin *)

(** Everything up to the promise, then the executor up to [setInterval].
    [opened] says whether [window.open] returned a window; the features
    string (size and position of the window) has no part in what follows
    and is left out. *)
Definition signinPopup_start
    (additionalParams : option (list (string * string))) (opened : bool)
  : M PopupAttempt :=
  discovery <- getDiscovery P config ;;
  pk <- generatePkceChallenge P ;;
  state <- generateState P ;;
  write (setItem KEY_STATE state) ;;;
  write (setItem KEY_CODE_VERIFIER (Pkce.codeVerifier pk)) ;;;
  url <- new_URL P (of_value (authorization_endpoint discovery)) ;;
  let url := set_param "client_id" (clientId config) url in
  let url := set_param "response_type" "code" url in
  let url := set_param "redirect_uri" (redirectUri config) url in
  let url := set_param "scope" (default "openid profile email" (scope config)) url in
  let url := set_param "state" state url in
  let url := set_param "code_challenge" (Pkce.codeChallenge pk) url in
  let url := set_param "code_challenge_method" "S256" url in
  let url :=
    match additionalParams with
    | Some entries => set_all entries url
    | None => url
    end in
  if opened then
    ret {| popup_url := serializeURL P url; popup_settled := None;
           interval_live := true; popup_open := true |}
  else
    ret {| popup_url := serializeURL P url; popup_settled := Some (inl PopupBlocked);
           interval_live := false; popup_open := false |}.

(** The [setInterval] callback.  [handleCallback] is run to completion
    here: the interval is cleared before it starts. *)
Definition on_tick (view : PopupView) (a : PopupAttempt) (w : World)
  : PopupAttempt * World :=
  match view with
  | ViewClosed => (settle (inl PopupClosed) (clearInterval a), w)
  | ViewAt popupUrl =>
      (* Check if popup navigated to our redirect URI *)
      if String.prefix (redirectUri config) popupUrl then
        let a := popup_close (clearInterval a) in
        match handleCallback P config (Some popupUrl) w with
        | (Returned tokens, w') => (settle (inr tokens) a, w')
        | (Thrown e, w') => (settle (inl (CallbackRejected e)) a, w')
        end
      else (a, w)
  | ViewCrossOrigin =>
      (* Cross-origin: popup is still on IAM domain, keep waiting *)
      (a, w)
  end.

(** A cleared interval does not tick. *)
Definition tick (view : PopupView) (aw : PopupAttempt * World)
  : PopupAttempt * World :=
  let '(a, w) := aw in
  if interval_live a then on_tick view a w else (a, w).

(** [signinPopup] against what the successive ticks find.  The result is
    the state of the promise. *)
Definition signinPopup
    (additionalParams : option (list (string * string))) (opened : bool)
    (views : list PopupView)
  : M (option (PopupError + TokenResponse)) :=
  a <- signinPopup_start additionalParams opened ;;
  fun w =>
    let '(a', w') := List.fold_left (fun aw view => tick view aw) views (a, w) in
    (Returned (popup_settled a'), w').

(** *** User info *)

Section UserInfo.
(** The parsed body, [Record<string, unknown>], and [JSON.parse] at that
    type. *)
Variable Json : Type.
Variable json_record : string -> option Json.

Definition userinfo_request (discovery : OidcDiscovery) (token : option string)
  : Request :=
  {| req_method := "GET";
     req_url := of_value (userinfo_endpoint discovery);
     req_headers := [("Authorization", ("Bearer " ++ of_value token)%string)];
     req_body := [] |}.

Definition getUserInfo (w : World) : (UserInfoError + Json) * World :=
  match getValidAccessToken P config w with
  | (Thrown e, w1) => (inl (Rethrown e), w1)
  | (Returned token, w1) =>
      if negb (truthy token) then (inl NoValidAccessToken, w1)
      else
        match getDiscovery P config w1 with
        | (Thrown e, w2) => (inl (Rethrown e), w2)
        | (Returned discovery, w2) =>
            match fetch P (userinfo_request discovery token) w2 with
            | (Thrown e, w3) => (inl (Rethrown e), w3)
            | (Returned res, w3) =>
                if negb (ok res) then (inl (UserinfoFailed (status res)), w3)
                else
                  match body res ≫= json_record with
                  | Some info => (inr info, w3)
                  | None => (inl (Rethrown BodyRejected), w3)
                  end
            end
        end
  end.

End UserInfo.

(** *** URL helpers
    [appName] and [orgName] are members of [IamConfig] that no other
    method reads; they are arguments here. *)

Definition getSignupUrl (appName orgName : option string) (enablePassword : bool)
  : string :=
  let base := baseUrl config in
  let app := default "app" appName in
  let org := default "built-in" orgName in
  let url := (base ++ "/signup/" ++ app)%string in
  if enablePassword then (url ++ "?enablePassword=true")%string else url.

Definition getUserProfileUrl (orgName : option string) (username : string) : string :=
  let base := baseUrl config in
  let org := default "built-in" orgName in
  (base ++ "/users/" ++ org ++ "/" ++ username)%string.

(** *** Views used to state the properties *)

(** The query the three signin methods put on the authorization
    endpoint, before any additional parameter. *)
Definition authorization_url (state codeChallenge : string) (url : URL) : URL :=
  set_param "code_challenge_method" "S256"
    (set_param "code_challenge" codeChallenge
       (set_param "state" state
          (set_param "scope" (default "openid profile email" (scope config))
             (set_param "redirect_uri" (redirectUri config)
                (set_param "response_type" "code"
                   (set_param "client_id" (clientId config) url)))))).


(** The token request of [handleCallback]. *)
Definition code_request (discovery : OidcDiscovery) (code codeVerifier : string)
  : Request :=
  {| req_method := "POST";
     req_url := of_value (token_endpoint discovery);
     req_headers := form_headers;
     req_body :=
       [ ("grant_type", "authorization_code");
         ("client_id", clientId config);
         ("code", code);
         ("redirect_uri", redirectUri config);
         ("code_verifier", codeVerifier) ] |}.

(** The token request of [refreshAccessToken]. *)
Definition refresh_request (discovery : OidcDiscovery) (refreshToken : string)
  : Request :=
  {| req_method := "POST";
     req_url := of_value (token_endpoint discovery);
     req_headers := form_headers;
     req_body :=
       [ ("grant_type", "refresh_token");
         ("client_id", clientId config);
         ("refresh_token", refreshToken) ] |}.

End Sdk.

(** The pair and the state a signin method generates in a world: the
    verifier from the next 64 random bytes, the state from the 32 after
    them. *)
Definition next_pkce (P : Platform) (w : World) : Pkce.PkceChallenge :=
  fst (Pkce.generatePkceChallenge (SHA256 P) (random_source P) (drawn w)).

Definition next_state (P : Platform) (w : World) : string :=
  fst (Pkce.generateState (random_source P) (drawn w + 64)).

(** The world once both have been generated and persisted. *)
Definition with_pending (P : Platform) (w : World) : World :=
  setItem KEY_CODE_VERIFIER (Pkce.codeVerifier (next_pkce P w))
    (setItem KEY_STATE (next_state P w)
       (with_drawn (drawn w + 64 + 32) w)).

(** The URL a signin method ends up with. *)
Definition dispatch_url (P : Platform) (config : BrowserIamConfig)
    (additionalParams : option (list (string * string))) (w : World) (u : URL) : URL :=
  set_all (default [] additionalParams)
    (authorization_url config (next_state P w)
       (Pkce.codeChallenge (next_pkce P w)) u).

(** A silent attempt has released its resources. *)
Definition released (a : SilentAttempt) : Prop :=
  timer_armed a = false /\ iframe_attached a = false.

(** A silent attempt is either still waiting, with its timer armed and
    its iframe in the document, or resolved, with both released and the
    pending request gone from storage. *)
Definition attempt_ok (a : SilentAttempt) (w : World) : Prop :=
  (settled a = None /\ timer_armed a = true /\ iframe_attached a = true)
  \/ (is_Some (settled a) /\ released a
      /\ getItem KEY_STATE w = None /\ getItem KEY_CODE_VERIFIER w = None).

(** A load that the listener of [signinSilent] lets pass: the frame is
    readable but has no address, or is not on the redirect URI. *)
Definition ignored_load (config : BrowserIamConfig) (href : option string) : bool :=
  match href with
  | Some iframeUrl =>
      negb (truthy (Some iframeUrl) && String.prefix (redirectUri config) iframeUrl)
  | None => true
  end.

(** No tick of the popup poll does anything at this view: the popup is
    on another origin, or on a page of ours that is not the redirect URI. *)
Definition waiting (config : BrowserIamConfig) (view : PopupView) : bool :=
  match view with
  | ViewClosed => false
  | ViewCrossOrigin => true
  | ViewAt href => negb (String.prefix (redirectUri config) href)
  end.

(** [n] slashes. *)
Definition slashes (n : nat) : string := string_of_list_ascii (List.repeat "/"%char n).

(** The same configuration with another server URL. *)
Definition with_serverUrl (url : string) (config : BrowserIamConfig)
  : BrowserIamConfig :=
  {| serverUrl := url; clientId := clientId config;
     redirectUri := redirectUri config; scope := scope config |}.

(** The six keys of the SDK. *)
Definition all_keys : list string :=
  [KEY_ACCESS_TOKEN; KEY_REFRESH_TOKEN; KEY_ID_TOKEN; KEY_EXPIRES_AT;
   KEY_STATE; KEY_CODE_VERIFIER].

End Flows.

(* ===================================================================== *)
(** ** Views of pkce.ts used to state further properties *)
(* ===================================================================== *)

Module Base64Url.
Import Pkce.

(** The digits and lower-case letters: the characters of a radix-36
    numeral. *)
Definition base36_alphabet : list ascii :=
  list_ascii_of_string "0123456789abcdefghijklmnopqrstuvwxyz".

(** Position of a character in a table. *)
Fixpoint index_in (tbl : list ascii) (c : ascii) : option N :=
  match tbl with
  | [] => None
  | x :: r => if Ascii.eqb x c then Some 0%N else N.succ <$> index_in r c
  end.

Definition unsextet (c : ascii) : option N := index_in url_alphabet c.

(** Bytes out of sextets, as RFC 4648 reads them back. *)
Definition byte1 (s1 s2 : N) : option byte :=
  Byte.of_N (N.lor (N.shiftl s1 2) (N.shiftr s2 4)).
Definition byte2 (s2 s3 : N) : option byte :=
  Byte.of_N (N.lor (N.shiftl (N.land s2 15) 4) (N.shiftr s3 2)).
Definition byte3 (s3 s4 : N) : option byte :=
  Byte.of_N (N.lor (N.shiftl (N.land s3 3) 6) s4).

(** Decoding of unpadded base64url text; [None] on text that is not the
    encoding of anything. *)
Fixpoint decode (text : list ascii) : option (list byte) :=
  match text with
  | [] => Some []
  | [c1; c2] =>
      s1 ← unsextet c1; s2 ← unsextet c2;
      a ← byte1 s1 s2; Some [a]
  | [c1; c2; c3] =>
      s1 ← unsextet c1; s2 ← unsextet c2; s3 ← unsextet c3;
      a ← byte1 s1 s2; b ← byte2 s2 s3; Some [a; b]
  | c1 :: c2 :: c3 :: c4 :: rest =>
      s1 ← unsextet c1; s2 ← unsextet c2; s3 ← unsextet c3; s4 ← unsextet c4;
      a ← byte1 s1 s2; b ← byte2 s2 s3; c ← byte3 s3 s4;
      tail ← decode rest; Some (a :: b :: c :: tail)
  | [_] => None
  end.

(** The numbers below [n], for checking a property of small numbers case
    by case. *)
Definition below (n : nat) : list N := List.map N.of_nat (List.seq 0 n).

(** The first two sextets of a group are sextets, give the first byte
    back and keep the high half of the second. *)
Definition first_ok (a b : N) : bool :=
  let s1 := N.shiftr a 2 in
  let s2 := N.lor (N.shiftl (N.land a 3) 4) (N.shiftr b 4) in
  (s1 <? 64)%N && (s2 <? 64)%N
  && (N.lor (N.shiftl s1 2) (N.shiftr s2 4) =? a)%N
  && (N.land s2 15 =? N.shiftr b 4)%N.

(** The last two sextets of a group are sextets and, with the high half
    of the second byte, give the second and third bytes back. *)
Definition last_ok (b c : N) : bool :=
  let s3 := N.lor (N.shiftl (N.land b 15) 2) (N.shiftr c 6) in
  let s4 := N.land c 63 in
  (s3 <? 64)%N && (s4 <? 64)%N
  && (N.lor (N.shiftl (N.shiftr b 4) 4) (N.shiftr s3 2) =? b)%N
  && (N.lor (N.shiftl (N.land s3 3) 6) s4 =? c)%N.

End Base64Url.

(* ===================================================================== *)
(** ** nextauth.ts *)
(* ===================================================================== *)

Module NextAuth.
Import JsString.

Record HanzoIamProfile := {
  sub : string;
  name : string;
  email : string;
  preferred_username : option string;
  picture : option string;
  avatar : option string;
  displayName : option string;
  email_verified : option bool;
}.

Inductive Check := check_state | check_pkce | check_nonce | check_none.

(** The named members of [options]; further keys are carried along
    untouched and play no part. *)
Record Options := {
  serverUrl : string;
  clientId : string;
  clientSecret : option string;
  orgName : option string;
  appName : option string;
  checks : option (list Check);
}.

(** What [profile()] returns. *)
Record User := {
  id : string;
  user_name : string;
  user_email : string;
  image : option string;
}.

(** [a || b] on [string | undefined | null]: [a] when it is truthy,
    else [b]. *)
Definition or_else (a b : option string) : option string :=
  if truthy a then a else b.

(** [a || ""]: the same with a string literal on the right. *)
Definition or_string (a : option string) (b : string) : string :=
  if truthy a then of_value a else b.

Definition profile (p : HanzoIamProfile) : User :=
  {| id := sub p;
     user_name :=
       or_string
         (or_else
            (or_else (or_else (displayName p) (Some (name p)))
               (preferred_username p))
            (Some (email p)))
         "";
     user_email := email p;
     image := or_else (or_else (avatar p) (picture p)) None |}.

(** [s.replace(/c$/, "")]: one trailing [c] is removed. *)
Fixpoint strip_one_trailing (c : ascii) (s : list ascii) : list ascii :=
  match s with
  | [] => []
  | [x] => if Ascii.eqb x c then [] else [x]
  | x :: r => x :: strip_one_trailing c r
  end.

(** The provider object, [profile] apart. *)
Record Provider := {
  provider_id : string;
  provider_name : string;
  provider_type : string;
  wellKnown : string;
  idToken : bool;
  provider_checks : list Check;
  authorization_scope : string;
  style_bg : string;
  style_text : string;
  style_logo : string;
  provider_options : Options;
}.

Definition issuer (options : Options) : string :=
  string_of_list_ascii
    (strip_one_trailing "/" (list_ascii_of_string (serverUrl options))).

Definition HanzoIamProvider (options : Options) : Provider :=
  {| provider_id := "hanzo-iam";
     provider_name := "Hanzo IAM";
     provider_type := "oauth";
     wellKnown := (issuer options ++ "/.well-known/openid-configuration")%string;
     idToken := true;
     provider_checks := default [check_state] (checks options);
     authorization_scope := "openid profile email";
     style_bg := "#050508";
     style_text := "#fff";
     style_logo := "";
     provider_options := options |}.

End NextAuth.

(* ===================================================================== *)
(** ** react.ts: the refresh scheduler of [IamProvider] *)
(* ===================================================================== *)

Module React.
Import JsString Browser.

Definition STORAGE_EXPIRES_KEY : string := "hanzo_iam_expires_at".

(** What one call of [scheduleRefresh] leaves behind, any earlier timer
    having been cleared first: nothing, a refresh started at once, or one
    timer with its delay ([None] for a delay that is [NaN]). *)
Inductive RefreshPlan :=
| NoRefresh
| RefreshNow
| RefreshIn (delay : option Z).

Definition scheduleRefresh (w : World) : RefreshPlan :=
  if isTokenExpired w then NoRefresh
  else
    let expiresAtStr := getItem STORAGE_EXPIRES_KEY w in
    if negb (truthy expiresAtStr) then NoRefresh
    else
      match to_number (of_value expiresAtStr) with
      | Some expiresAt =>
          let msUntilRefresh := (expiresAt - now w - 60000)%Z in
          if (msUntilRefresh <=? 0)%Z then RefreshNow
          else RefreshIn (Some msUntilRefresh)
      | None => RefreshIn None
      end.

End React.

(* ===================================================================== *)
(** ** Further concrete values *)
(* ===================================================================== *)

Module Scenario.
Import JsString Browser.

(** The world [Demo.fresh] is in after [signinRedirect] and the load of
    the callback page. *)
Definition redirected : World :=
  Flows.reload (snd (Flows.signinRedirect Demo.browser Demo.config None Demo.fresh)).

(** The callback the provider sends the browser back with. *)
Definition redirect_callback : string :=
  ("https://app/cb?code=abc&state="
     ++ JsString.of_value (getItem KEY_STATE redirected))%string.

Definition redirect_callback_url : URL :=
  {| url_base := "https://app/cb";
     searchParams :=
       [("code", "abc"); ("state", JsString.of_value (getItem KEY_STATE redirected))] |}.

(** A session whose access token is still good. *)
Definition signed_in : World :=
  {| storage :=
       <[KEY_ACCESS_TOKEN := "at-1"]>
         (<[KEY_REFRESH_TOKEN := "rt-1"]>
            (<[KEY_EXPIRES_AT := "1700000900000"]>
               (<["theme" := "dark"]> ∅)));
     discoveryCache := None; now := 1700000000000;
     sent := []; drawn := 0; location_href := "https://app/" |}.

(** A token response that lives thirty seconds. *)
Definition short_lived : TokenResponse :=
  {| access_token := "at-4";
     refresh_token := Some "rt-4";
     id_token := Some "id-4";
     expires_in := Some 30%Z |}.

(** A provider whose token endpoint answers without a new refresh token. *)
Definition json_tokens (text : string) : option TokenResponse :=
  if String.eqb text "token response" then Some Demo.bearer_only else None.

Definition thrifty : Platform :=
  {| SHA256 := SHA256 Demo.browser;
     random_source := random_source Demo.browser;
     parseURL := Demo.parseURL;
     serializeURL := Demo.serializeURL;
     network := Demo.healthy;
     json_discovery := Demo.json_discovery;
     Browser.json_tokens := json_tokens |}.

Definition profile : NextAuth.HanzoIamProfile :=
  {| NextAuth.sub := "hanzo/z";
     NextAuth.name := "";
     NextAuth.email := "z@hanzo.ai";
     NextAuth.preferred_username := Some "z";
     NextAuth.picture := Some "https://cdn/z.png";
     NextAuth.avatar := Some "";
     NextAuth.displayName := None;
     NextAuth.email_verified := None |}.

End Scenario.

(* ===================================================================== *)
(** ** Properties of pkce.ts *)
(* ===================================================================== *)

Section PkceProperties.
Import JsString Pkce.

Example base64_and_random_strings :
  base64UrlEncode (encode "foobar") = "Zm9vYmFy"
  /\ base64UrlEncode (encode "fo") = "Zm8"
  /\ base64UrlEncode [xfb; xff] = "-_8"
  /\ randomString_of 4 [x00; xff; x23; x24] = "0073"
  /\ randomString_of 8 [x00; xff; x23; x24] = "00730z10".
Proof. vm_compute. repeat split. Qed.

(** *** base64url *)

(** Lists of bytes, three at a time. *)
Lemma triples_ind (Q : list byte -> Prop) :
  Q [] ->
  (forall a, Q [a]) ->
  (forall a b, Q [a; b]) ->
  (forall a b c rest, Q rest -> Q (a :: b :: c :: rest)) ->
  forall l, Q l.
Proof.
  intros H0 H1 H2 H3.
  assert (forall l, Q l /\ (forall a, Q (a :: l)) /\ (forall a b, Q (a :: b :: l)))
    as Hall.
  { induction l as [|c l (IH0 & IH1 & IH2)]; repeat split; auto. }
  intros l. apply Hall.
Qed.

Lemma replace_twice (s : list ascii) :
  replace_all "/" "_" (replace_all "+" "-" s) = List.map to_url s.
Proof. unfold replace_all. rewrite List.map_map. reflexivity. Qed.

Lemma to_url_sextet (n : N) :
  to_url (sextet alphabet n) = sextet url_alphabet n.
Proof.
  unfold sextet.
  change "A"%char with (to_url "A") at 2.
  change url_alphabet with (List.map to_url alphabet).
  now rewrite List.map_nth.
Qed.

Lemma to_url_quad (a b c : N) :
  List.map to_url (quad alphabet a b c) = quad url_alphabet a b c.
Proof. unfold quad. cbn [List.map]. now rewrite !to_url_sextet. Qed.

Lemma sextet_not_pad (n : N) : sextet url_alphabet n <> "="%char.
Proof.
  unfold sextet.
  destruct (List.nth_in_or_default (N.to_nat n) url_alphabet "A"%char) as [Hin | ->];
    [| discriminate].
  revert Hin. generalize (List.nth (N.to_nat n) url_alphabet "A"%char). intros x.
  assert (List.forallb (fun y => negb (Ascii.eqb y "=")) url_alphabet = true) as Hall
    by reflexivity.
  rewrite List.forallb_forall in Hall.
  intros Hin ->. specialize (Hall _ Hin). discriminate.
Qed.

Lemma strip_trailing_app (c : ascii) (q r : list ascii) :
  List.Forall (fun x => x <> c) q ->
  strip_trailing c (q ++ r) = q ++ strip_trailing c r.
Proof.
  induction 1 as [|x q Hx _ IH]; [reflexivity|].
  cbn [app strip_trailing]. rewrite IH.
  destruct (q ++ strip_trailing c r) eqn:E; [|reflexivity].
  destruct (Ascii.eqb_spec x c); [contradiction | reflexivity].
Qed.

Lemma quad_not_pad (a b c : N) :
  List.Forall (fun x => x <> "="%char) (quad url_alphabet a b c).
Proof. unfold quad. repeat constructor; apply sextet_not_pad. Qed.

(** [base64UrlEncode] is the unpadded URL-safe encoding of RFC 4648. *)
Lemma base64UrlEncode_unpadded (buffer : list byte) :
  base64UrlEncode buffer = string_of_list_ascii (base64url_unpadded buffer).
Proof.
  unfold base64UrlEncode. f_equal. rewrite replace_twice.
  induction buffer as [|a|a b|a b c rest IH] using triples_ind.
  - reflexivity.
  - cbn [btoa base64url_unpadded].
    rewrite List.map_app, <- List.firstn_map, to_url_quad.
    rewrite strip_trailing_app; [apply List.app_nil_r|].
    apply list.Forall_take, quad_not_pad.
  - cbn [btoa base64url_unpadded].
    rewrite List.map_app, <- List.firstn_map, to_url_quad.
    rewrite strip_trailing_app; [apply List.app_nil_r|].
    apply list.Forall_take, quad_not_pad.
  - cbn [btoa base64url_unpadded].
    rewrite List.map_app, to_url_quad.
    rewrite strip_trailing_app by apply quad_not_pad.
    now rewrite IH.
Qed.

(** *** Random strings *)

Lemma byte_of_two_digits (b : byte) : byte_of_digits (two_digits b) = Some b.
Proof. destruct b; reflexivity. Qed.

Lemma two_digits_shape (b : byte) : exists h l, two_digits b = [h; l].
Proof.
  unfold two_digits, padStart, toString36.
  destruct (Byte.to_N b <? 36)%N; cbn; eauto.
Qed.

Lemma two_digits_inj (a b : byte) : two_digits a = two_digits b -> a = b.
Proof.
  intros E. apply (f_equal byte_of_digits) in E.
  rewrite !byte_of_two_digits in E. now injection E.
Qed.

Lemma digits_cons (b : byte) (array : list byte) :
  digits (b :: array) = two_digits b ++ digits array.
Proof. reflexivity. Qed.

Lemma digits_inj (a b : list byte) : digits a = digits b -> a = b.
Proof.
  revert b. induction a as [|x a IH]; intros [|y b]; rewrite ?digits_cons.
  - reflexivity.
  - destruct (two_digits_shape y) as (h & l & ->). discriminate.
  - destruct (two_digits_shape x) as (h & l & ->). discriminate.
  - intros E.
    destruct (two_digits_shape x) as (h & l & Ex).
    destruct (two_digits_shape y) as (h' & l' & Ey).
    rewrite Ex, Ey in E. cbn in E. injection E as -> -> E.
    f_equal; [apply two_digits_inj; congruence | now apply IH].
Qed.

Lemma slice_digits (k : nat) (array : list byte) :
  slice0 (2 * k) (digits array) = digits (firstn k array).
Proof.
  unfold slice0. revert array.
  induction k as [|k IH]; intros array; [reflexivity|].
  destruct array as [|b array]; [reflexivity|].
  replace (2 * S k) with (S (S (2 * k))) by lia.
  cbn [firstn]. rewrite !digits_cons.
  destruct (two_digits_shape b) as (h & l & ->).
  cbn [app firstn]. now rewrite IH.
Qed.

Lemma string_of_list_ascii_inj (s t : list ascii) :
  string_of_list_ascii s = string_of_list_ascii t -> s = t.
Proof.
  intros E. apply (f_equal list_ascii_of_string) in E.
  now rewrite !list_ascii_of_string_of_list_ascii in E.
Qed.

Lemma length_string_of_list_ascii (s : list ascii) :
  String.length (string_of_list_ascii s) = List.length s.
Proof. induction s; cbn; congruence. Qed.

Lemma length_digits (array : list byte) :
  List.length (digits array) = 2 * List.length array.
Proof.
  induction array as [|b array IH]; [reflexivity|].
  rewrite digits_cons, List.length_app, IH.
  destruct (two_digits_shape b) as (h & l & ->). cbn. lia.
Qed.

(** A string of [2 * k] characters is the first [k] bytes, two digits
    each: it says what they are and nothing about the others. *)
Lemma randomString_of_even (k : nat) (a b : list byte) :
  randomString_of (2 * k) a = randomString_of (2 * k) b
  <-> firstn k a = firstn k b.
Proof.
  unfold randomString_of.
  change (List.concat (List.map (fun b => padStart 2 "0" (toString36 b)) a))
    with (digits a).
  change (List.concat (List.map (fun b => padStart 2 "0" (toString36 b)) b))
    with (digits b).
  rewrite !slice_digits. split.
  - intros E. now apply digits_inj, string_of_list_ascii_inj.
  - now intros ->.
Qed.

Lemma length_randomString_of (n : nat) (array : list byte) :
  List.length array = n ->
  String.length (randomString_of n array) = n.
Proof.
  intros Hn. unfold randomString_of, slice0.
  change (List.concat (List.map (fun b => padStart 2 "0" (toString36 b)) array))
    with (digits array).
  rewrite length_string_of_list_ascii, List.length_firstn, length_digits. lia.
Qed.

Lemma length_getRandomValues (source : nat -> byte) (pos n : nat) :
  List.length (getRandomValues source pos n) = n.
Proof. unfold getRandomValues. now rewrite List.length_map, List.length_seq. Qed.

Lemma firstn_getRandomValues (source : nat -> byte) (pos k n : nat) :
  k <= n ->
  firstn k (getRandomValues source pos n) = getRandomValues source pos k.
Proof.
  intros Hk. unfold getRandomValues.
  rewrite List.firstn_map, take_seq. f_equal. f_equal. lia.
Qed.

(** C6: for every pair produced by [generatePkceChallenge], the challenge
    is the URL-safe unpadded base64 encoding of the SHA-256 digest of the
    verifier, and the verifier has between 43 and 128 characters (it has
    64). *)
Theorem generatePkceChallenge_S256
    (SHA256 : list byte -> list byte) (source : nat -> byte) (pos : nat) :
  let pk := fst (generatePkceChallenge SHA256 source pos) in
  codeChallenge pk
    = string_of_list_ascii (base64url_unpadded (SHA256 (encode (codeVerifier pk))))
  /\ String.length (codeVerifier pk) = 64
  /\ 43 <= String.length (codeVerifier pk) <= 128.
Proof.
  cbn -[base64UrlEncode randomString_of getRandomValues].
  rewrite length_randomString_of by apply length_getRandomValues.
  repeat split; try lia.
  unfold sha256. apply base64UrlEncode_unpadded.
Qed.

(** C9, as the code has it: the verifier is determined by, and
    determines, the first 32 of the 64 bytes drawn for it (256 bits); the
    state is determined by, and determines, the first 16 of the 32 bytes
    drawn for it (128 bits). *)
Theorem generated_values_entropy
    (SHA256 : list byte -> list byte) (s1 s2 : nat -> byte) (p1 p2 : nat) :
  (codeVerifier (fst (generatePkceChallenge SHA256 s1 p1))
     = codeVerifier (fst (generatePkceChallenge SHA256 s2 p2))
   <-> getRandomValues s1 p1 32 = getRandomValues s2 p2 32)
  /\ (fst (generateState s1 p1) = fst (generateState s2 p2)
      <-> getRandomValues s1 p1 16 = getRandomValues s2 p2 16).
Proof.
  cbn -[randomString_of getRandomValues].
  rewrite <- (firstn_getRandomValues s1 p1 32 64), <- (firstn_getRandomValues s2 p2 32 64),
    <- (firstn_getRandomValues s1 p1 16 32), <- (firstn_getRandomValues s2 p2 16 32)
    by lia.
  split.
  - apply (randomString_of_even 32).
  - apply (randomString_of_even 16).
Qed.

Lemma generated_values_entropy_witness :
  fst (generateState (fun _ => x00) 0)
  = fst (generateState (fun i => if Nat.eqb i 16 then x01 else x00) 0).
Proof.
  exact (proj2 (proj2 (generated_values_entropy
                         (fun bytes => bytes) (fun _ => x00)
                         (fun i => if Nat.eqb i 16 then x01 else x00) 0 0))
           eq_refl).
Defined.

(** C9 as stated fails for [generateState]: two runs whose 32 drawn bytes
    differ (in the seventeenth byte) produce the same state. *)
Lemma generateState_not_injective_on_32_bytes :
  ~ (forall (s1 s2 : nat -> byte) (p1 p2 : nat),
        fst (generateState s1 p1) = fst (generateState s2 p2) ->
        getRandomValues s1 p1 32 = getRandomValues s2 p2 32).
Proof.
  intros Hinj.
  specialize (Hinj (fun _ => x00) (fun i => if Nat.eqb i 16 then x01 else x00) 0 0).
  discriminate Hinj. reflexivity.
Qed.

End PkceProperties.

(* ===================================================================== *)
(** ** Properties of browser.ts *)
(* ===================================================================== *)

Section BrowserProperties.
Import JsString Browser.

(** *** Numbers and strings *)

Lemma to_int_not_nil (z : Z) :
  Z.to_int z <> Decimal.Pos Decimal.Nil /\ Z.to_int z <> Decimal.Neg Decimal.Nil.
Proof.
  destruct z as [|p|p]; cbn; split; try discriminate; intros [= E];
    now apply DecimalPos.Unsigned.to_uint_nonnil in E.
Qed.

Lemma of_int_not_empty (z : Z) : of_int z <> "".
Proof.
  unfold of_int. intros E.
  destruct (to_int_not_nil z) as [Hp Hn].
  pose proof (NilZero.isi _ Hp Hn) as Hisi. rewrite E in Hisi. discriminate.
Qed.

Lemma of_int_not_minus (z : Z) : of_int z <> "-".
Proof.
  unfold of_int. intros E.
  destruct (to_int_not_nil z) as [Hp Hn].
  pose proof (NilZero.isi _ Hp Hn) as Hisi. rewrite E in Hisi.
  cbn in Hisi. congruence.
Qed.

(** [Number(String(n)) = n] *)
Lemma to_number_of_int (z : Z) : to_number (of_int z) = Some z.
Proof.
  unfold to_number.
  destruct (String.eqb_spec (of_int z) "-") as [E|_];
    [now apply of_int_not_minus in E|].
  unfold of_int. destruct (to_int_not_nil z) as [Hp Hn].
  rewrite NilZero.isi by assumption. now rewrite DecimalZ.of_to.
Qed.

Lemma truthy_of_int (z : Z) : truthy (Some (of_int z)) = true.
Proof.
  cbn. destruct (String.eqb_spec (of_int z) ""); [|reflexivity].
  now destruct (of_int_not_empty z).
Qed.

(** *** Storage *)

Lemma getItem_setItem (k k' v : string) (w : World) :
  getItem k (setItem k' v w) = if decide (k' = k) then Some v else getItem k w.
Proof. unfold getItem, setItem. cbn. apply lookup_insert. Qed.

Lemma getItem_removeItem (k k' : string) (w : World) :
  getItem k (removeItem k' w) = if decide (k' = k) then None else getItem k w.
Proof. unfold getItem, removeItem. cbn. apply lookup_delete. Qed.

Lemma getItem_setItem_ne (k k' v : string) (w : World) :
  k' <> k -> getItem k (setItem k' v w) = getItem k w.
Proof. intros. rewrite getItem_setItem. now destruct decide. Qed.

Lemma getItem_setItem_eq (k v : string) (w : World) :
  getItem k (setItem k v w) = Some v.
Proof. rewrite getItem_setItem. now destruct decide. Qed.

(** [storeTokens] writes session keys only. *)
Lemma storeTokens_other_keys (tokens : TokenResponse) (k : string) (w : World) :
  k ∉ session_keys -> getItem k (storeTokens tokens w) = getItem k w.
Proof.
  intros Hk.
  assert (KEY_ACCESS_TOKEN <> k /\ KEY_REFRESH_TOKEN <> k
          /\ KEY_ID_TOKEN <> k /\ KEY_EXPIRES_AT <> k) as (H1 & H2 & H3 & H4).
  { unfold session_keys in Hk. repeat split; intros <-; apply Hk; set_solver. }
  unfold storeTokens.
  repeat match goal with
         | |- context [match ?x with _ => _ end] => destruct x
         end;
    rewrite ?getItem_setItem_ne by assumption; reflexivity.
Qed.

Lemma now_storeTokens_prefix (tokens : TokenResponse) (w : World) :
  now (storeTokens tokens w) = now w.
Proof.
  unfold storeTokens.
  repeat match goal with
         | |- context [match ?x with _ => _ end] => destruct x
         end; reflexivity.
Qed.

Lemma sent_storeTokens (tokens : TokenResponse) (w : World) :
  sent (storeTokens tokens w) = sent w.
Proof.
  unfold storeTokens.
  repeat match goal with
         | |- context [match ?x with _ => _ end] => destruct x
         end; reflexivity.
Qed.

(** C5: after [storeTokens] with [expires_in = 3600] the stored expiry is
    the instant of storing plus 3600 seconds; [isTokenExpired] is false
    at once, false at every instant before that one and true from it on;
    and with no stored expiry [isTokenExpired] is true. *)
Theorem storeTokens_expiry (tokens : TokenResponse) (w : World) :
  expires_in tokens = Some 3600%Z ->
  let w' := storeTokens tokens w in
  let expiry := (now w + 3600 * 1000)%Z in
  getItem KEY_EXPIRES_AT w' = Some (of_int expiry)
  /\ to_number (of_int expiry) = Some expiry
  /\ isTokenExpired w' = false
  /\ (forall t, isTokenExpired (at_time t w') = (expiry <=? t)%Z)
  /\ (forall w0, getItem KEY_EXPIRES_AT w0 = None -> isTokenExpired w0 = true).
Proof.
  intros He w' expiry.
  assert (getItem KEY_EXPIRES_AT w' = Some (of_int expiry)) as Hget.
  { subst w' expiry. unfold storeTokens. rewrite He. cbn [Z.eqb].
    rewrite getItem_setItem_eq. f_equal. f_equal. f_equal.
    repeat match goal with
           | |- context [if ?x then _ else _] => destruct x
           end; reflexivity. }
  assert (forall t, isTokenExpired (at_time t w') = (expiry <=? t)%Z) as Hat.
  { intros t. unfold isTokenExpired.
    change (getItem KEY_EXPIRES_AT (at_time t w')) with (getItem KEY_EXPIRES_AT w').
    rewrite Hget, truthy_of_int. cbn [negb of_value].
    now rewrite to_number_of_int. }
  split; [exact Hget|]. split; [apply to_number_of_int|].
  split; [|split; [exact Hat|]].
  - unfold isTokenExpired. rewrite Hget, truthy_of_int. cbn [negb of_value].
    rewrite to_number_of_int.
    subst w'. rewrite now_storeTokens_prefix. subst expiry. lia.
  - intros w0 H0. unfold isTokenExpired. now rewrite H0.
Qed.

Lemma storeTokens_expiry_witness :
  expires_in Demo.tokens = Some 3600%Z
  /\ isTokenExpired (storeTokens Demo.tokens Demo.pending) = false
  /\ isTokenExpired (at_time 1700003600000 (storeTokens Demo.tokens Demo.pending)) = true.
Proof.
  split; [reflexivity|].
  pose proof (storeTokens_expiry Demo.tokens Demo.pending eq_refl) as H.
  split; [exact (proj1 (proj2 (proj2 H)))|].
  exact (proj1 (proj2 (proj2 (proj2 H))) 1700003600000%Z).
Defined.

(** C10: when the token response omits [expires_in] (or [refresh_token],
    or [id_token]), [storeTokens] leaves the value stored before under
    that key in place; after an omitted [expires_in], [isTokenExpired]
    answers as it did for the previous token set. *)
Theorem storeTokens_keeps_omitted (tokens : TokenResponse) (w : World) :
  let w' := storeTokens tokens w in
  (expires_in tokens = None ->
     getItem KEY_EXPIRES_AT w' = getItem KEY_EXPIRES_AT w
     /\ isTokenExpired w' = isTokenExpired w)
  /\ (refresh_token tokens = None -> getRefreshToken w' = getRefreshToken w)
  /\ (id_token tokens = None -> getIdToken w' = getIdToken w).
Proof.
  cbn zeta.
  assert (KEY_ACCESS_TOKEN <> KEY_EXPIRES_AT /\ KEY_REFRESH_TOKEN <> KEY_EXPIRES_AT
          /\ KEY_ID_TOKEN <> KEY_EXPIRES_AT /\ KEY_ACCESS_TOKEN <> KEY_REFRESH_TOKEN
          /\ KEY_ID_TOKEN <> KEY_REFRESH_TOKEN /\ KEY_EXPIRES_AT <> KEY_REFRESH_TOKEN
          /\ KEY_ACCESS_TOKEN <> KEY_ID_TOKEN /\ KEY_REFRESH_TOKEN <> KEY_ID_TOKEN
          /\ KEY_EXPIRES_AT <> KEY_ID_TOKEN)
    as (? & ? & ? & ? & ? & ? & ? & ? & ?) by (repeat split; discriminate).
  split; [|split].
  - intros He.
    assert (getItem KEY_EXPIRES_AT (storeTokens tokens w) = getItem KEY_EXPIRES_AT w)
      as Hget.
    { unfold storeTokens. rewrite He.
      repeat match goal with
             | |- context [if ?x then _ else _] => destruct x
             end;
        rewrite ?getItem_setItem_ne by assumption; reflexivity. }
    split; [exact Hget|].
    unfold isTokenExpired. now rewrite Hget, now_storeTokens_prefix.
  - intros Hr. unfold getRefreshToken, storeTokens. rewrite Hr. cbn [truthy].
    repeat match goal with
           | |- context [match ?x with _ => _ end] => destruct x
           end;
      rewrite ?getItem_setItem_ne by assumption; reflexivity.
  - intros Hi. unfold getIdToken, storeTokens. rewrite Hi. cbn [truthy].
    repeat match goal with
           | |- context [match ?x with _ => _ end] => destruct x
           end;
      rewrite ?getItem_setItem_ne by assumption; reflexivity.
Qed.

Lemma storeTokens_keeps_omitted_witness :
  expires_in Demo.bearer_only = None
  /\ getItem KEY_EXPIRES_AT (storeTokens Demo.bearer_only Demo.pending)
     = Some "1600000000000"
  /\ isTokenExpired (storeTokens Demo.bearer_only Demo.pending) = true
  /\ getRefreshToken (storeTokens Demo.bearer_only Demo.pending) = Some "rt-1".
Proof.
  split; [reflexivity|].
  pose proof (storeTokens_keeps_omitted Demo.bearer_only Demo.pending) as H.
  split; [exact (proj1 (proj1 H eq_refl))|].
  split; [exact (proj2 (proj1 H eq_refl))|].
  exact (proj1 (proj2 H) eq_refl).
Defined.

(** *** Requests and frames *)

Section WithPlatform.
Variable P : Platform.
Variable config : BrowserIamConfig.

Lemma count_grant_app (g : string) (l1 l2 : list Request) :
  count_grant g (l1 ++ l2) = count_grant g l1 + count_grant g l2.
Proof. unfold count_grant. now rewrite List.filter_app, List.length_app. Qed.

Lemma count_grant_one (g : string) (r : Request) : count_grant g [r] <= 1.
Proof. unfold count_grant. cbn. destruct (has_grant g r); cbn; lia. Qed.

Lemma fetch_eq (req : Request) (w : World) :
  fetch P req w
  = (match answer (network P (sent w) req) with
     | Some res => Returned res
     | None => Thrown FetchRejected
     end,
     after_request req (took (network P (sent w) req)) w).
Proof. unfold fetch. now destruct (answer _). Qed.

(** What one call of [getDiscovery] does when nothing is cached. *)
Lemma getDiscovery_uncached (w : World) :
  discoveryCache w = None ->
  let rt := network P (sent w) (discovery_request config) in
  let w1 := after_request (discovery_request config) (took rt) w in
  getDiscovery P config w
  = match answer rt with
    | None => (Thrown FetchRejected, w1)
    | Some res =>
        if ok res then
          match body res ≫= json_discovery P with
          | Some d => (Returned d, with_cache (Some d) w1)
          | None => (Thrown BodyRejected, w1)
          end
        else (Thrown (DiscoveryFailed (status res)), w1)
    end.
Proof.
  intros Hc. cbn zeta.
  unfold getDiscovery, bind, read. rewrite Hc.
  fold (discovery_request config). rewrite fetch_eq.
  destruct (answer _) as [res|]; [|reflexivity].
  destruct (ok res); cbn [negb]; [|reflexivity].
  unfold res_json, write, ret, throw.
  destruct (body res) as [t|]; cbn; [|reflexivity].
  now destruct (json_discovery P t).
Qed.

Lemma getDiscovery_cached (w : World) (d : OidcDiscovery) :
  discoveryCache w = Some d -> getDiscovery P config w = (Returned d, w).
Proof. intros Hc. unfold getDiscovery, bind, read. now rewrite Hc. Qed.

(** [getDiscovery] leaves the storage alone and sends no token request. *)
Lemma getDiscovery_frame (w w' : World) (o : Outcome OidcDiscovery) :
  getDiscovery P config w = (o, w') ->
  storage w' = storage w
  /\ exists l, sent w' = sent w ++ l /\ forall g, count_grant g l = 0.
Proof.
  destruct (discoveryCache w) as [d|] eqn:Hc.
  - rewrite (getDiscovery_cached w d Hc). intros [= <- <-].
    split; [reflexivity|]. exists []. now rewrite List.app_nil_r.
  - rewrite (getDiscovery_uncached w Hc). cbn zeta. intros H.
    assert (storage w' = storage w
            /\ sent w' = sent w ++ [discovery_request config]) as [Hs Hl].
    { repeat case_match; simplify_eq; split; reflexivity. }
    split; [exact Hs|]. exists [discovery_request config].
    split; [exact Hl | reflexivity].
Qed.

(** C7, as the code has it: with nothing cached, [getDiscovery] fails
    when the request fails, when the status is not a success, and when
    the body is not JSON, and then caches nothing; any document the
    body parses to is cached and returned as it is, whatever endpoints
    it has. *)
Theorem getDiscovery_outcomes (w : World) :
  discoveryCache w = None ->
  let rt := network P (sent w) (discovery_request config) in
  let w1 := after_request (discovery_request config) (took rt) w in
  discoveryCache w1 = None
  /\ (answer rt = None -> getDiscovery P config w = (Thrown FetchRejected, w1))
  /\ (forall res, answer rt = Some res -> ok res = false ->
        getDiscovery P config w = (Thrown (DiscoveryFailed (status res)), w1))
  /\ (forall res, answer rt = Some res -> ok res = true ->
        body res ≫= json_discovery P = None ->
        getDiscovery P config w = (Thrown BodyRejected, w1))
  /\ (forall res d, answer rt = Some res -> ok res = true ->
        body res ≫= json_discovery P = Some d ->
        getDiscovery P config w = (Returned d, with_cache (Some d) w1)).
Proof.
  intros Hc rt w1. rewrite (getDiscovery_uncached w Hc).
  fold rt. fold w1. split; [exact Hc|].
  split; [now intros ->|].
  split; [now intros res -> ->|].
  split; [now intros res -> -> ->|].
  now intros res d -> -> ->.
Qed.

(** *** Refresh *)

Lemma getAccessToken_storeTokens (tokens : TokenResponse) (w : World) :
  getAccessToken (storeTokens tokens w) = Some (access_token tokens).
Proof.
  assert (KEY_REFRESH_TOKEN <> KEY_ACCESS_TOKEN /\ KEY_ID_TOKEN <> KEY_ACCESS_TOKEN
          /\ KEY_EXPIRES_AT <> KEY_ACCESS_TOKEN) as (? & ? & ?)
    by (repeat split; discriminate).
  unfold getAccessToken, storeTokens.
  repeat match goal with
         | |- context [match ?x with _ => _ end] => destruct x
         end;
    rewrite ?getItem_setItem_ne by assumption; apply getItem_setItem_eq.
Qed.

(** One run of [refreshAccessToken]: a failure leaves the storage as it
    was; a success has stored the access token it returns; and one
    refresh request at most has gone out, exactly one on success. *)
Lemma refreshAccessToken_frame (w w' : World) (o : Outcome TokenResponse) :
  refreshAccessToken P config w = (o, w') ->
  (forall e, o = Thrown e -> storage w' = storage w)
  /\ (forall tokens, o = Returned tokens ->
        getAccessToken w' = Some (access_token tokens)
        /\ count_grant "refresh_token" (sent w')
           = 1 + count_grant "refresh_token" (sent w))
  /\ count_grant "refresh_token" (sent w') <= 1 + count_grant "refresh_token" (sent w).
Proof.
  unfold refreshAccessToken. unfold bind at 1. unfold read.
  destruct (truthy (getItem KEY_REFRESH_TOKEN w)); cbn [negb].
  2:{ intros [= <- <-]. split; [reflexivity|]. split; [discriminate | lia]. }
  unfold bind at 1.
  destruct (getDiscovery P config w) as [[d|e0] w1] eqn:Hd;
    destruct (getDiscovery_frame _ _ _ Hd) as (Hs1 & l & Hl & Hg).
  2:{ intros [= <- <-]. split; [now intros|]. split; [discriminate|].
      rewrite Hl, count_grant_app, Hg. lia. }
  unfold bind at 1. rewrite fetch_eq.
  set (req := {| req_method := "POST" |}).
  set (w2 := after_request req _ w1).
  assert (storage w2 = storage w) as Hs2 by exact Hs1.
  assert (count_grant "refresh_token" (sent w2)
          = 1 + count_grant "refresh_token" (sent w)) as Hc2.
  { subst w2. cbn [sent after_request].
    rewrite Hl, !count_grant_app, Hg.
    change (count_grant "refresh_token" [req]) with 1. lia. }
  destruct (answer _) as [res|].
  2:{ intros [= <- <-]. split; [now intros|]. split; [discriminate | lia]. }
  destruct (ok res); cbn [negb].
  2:{ intros [= <- <-]. split; [now intros|]. split; [discriminate | lia]. }
  unfold bind, res_json, write, ret, throw.
  destruct (body res) as [t|]; [destruct (json_tokens P t) as [tk|]|];
    intros [= <- <-]; (split; [now intros|]);
    rewrite ?sent_storeTokens; (split; [|lia]); try discriminate.
  intros tokens [= <-]. split; [apply getAccessToken_storeTokens | exact Hc2].
Qed.

(** C8: whenever [refreshAccessToken] fails, for whatever reason, the
    storage is what it was: access token, refresh token, ID token and
    expiry instant are unchanged. *)
Theorem refreshAccessToken_failure_keeps_tokens (w w' : World) (e : Error) :
  refreshAccessToken P config w = (Thrown e, w') ->
  storage w' = storage w
  /\ getAccessToken w' = getAccessToken w
  /\ getRefreshToken w' = getRefreshToken w
  /\ getIdToken w' = getIdToken w
  /\ getItem KEY_EXPIRES_AT w' = getItem KEY_EXPIRES_AT w.
Proof.
  intros H. apply refreshAccessToken_frame in H as (Hs & _ & _).
  specialize (Hs e eq_refl).
  unfold getAccessToken, getRefreshToken, getIdToken, getItem.
  now rewrite Hs.
Qed.

(** *** getValidAccessToken *)

Lemma bind_ret {A B} (a : A) (k : A -> M B) (w : World) :
  bind (ret a) k w = k a w.
Proof. reflexivity. Qed.

Lemma bind_read {A B} (f : World -> A) (k : A -> M B) (w : World) :
  bind (read f) k w = k (f w) w.
Proof. reflexivity. Qed.

Lemma bind_write {B} (f : World -> World) (k : unit -> M B) (w : World) :
  bind (write f) k w = k tt (f w).
Proof. reflexivity. Qed.

Lemma getValidAccessToken_eq (w : World) :
  getValidAccessToken P config w
  = if truthy (getAccessToken w) && negb (isTokenExpired w)
    then (Returned (getAccessToken w), w)
    else if truthy (getRefreshToken w) then
      match refreshAccessToken P config w with
      | (Returned tokens, w1) => (Returned (Some (access_token tokens)), w1)
      | (Thrown _, w1) => (Returned None, w1)
      end
    else (Returned None, w).
Proof.
  unfold getValidAccessToken. rewrite !bind_read.
  destruct (truthy (getAccessToken w) && negb (isTokenExpired w)); [reflexivity|].
  rewrite bind_read.
  destruct (truthy (getRefreshToken w)); [|reflexivity].
  unfold try_catch, bind.
  now destruct (refreshAccessToken P config w) as [[tokens|e] w1].
Qed.

(** C4: [getValidAccessToken] always returns and never throws.  It
    returns the stored access token when one is present and unexpired;
    otherwise, with a refresh token stored, it runs [refreshAccessToken]
    once and returns the access token of its result, which is then the
    stored one, or [null] when it threw; otherwise it returns [null].  At
    most one refresh request goes out. *)
Theorem getValidAccessToken_total (w : World) :
  (exists r w', getValidAccessToken P config w = (Returned r, w'))
  /\ count_grant "refresh_token" (sent (snd (getValidAccessToken P config w)))
     <= 1 + count_grant "refresh_token" (sent w)
  /\ (truthy (getAccessToken w) = true -> isTokenExpired w = false ->
        getValidAccessToken P config w = (Returned (getAccessToken w), w))
  /\ (truthy (getAccessToken w) && negb (isTokenExpired w) = false ->
        truthy (getRefreshToken w) = true ->
        getValidAccessToken P config w
        = match refreshAccessToken P config w with
          | (Returned tokens, w1) => (Returned (Some (access_token tokens)), w1)
          | (Thrown _, w1) => (Returned None, w1)
          end
        /\ forall tokens w1,
             refreshAccessToken P config w = (Returned tokens, w1) ->
             getAccessToken w1 = Some (access_token tokens)
             /\ count_grant "refresh_token" (sent w1)
                = 1 + count_grant "refresh_token" (sent w))
  /\ (truthy (getAccessToken w) && negb (isTokenExpired w) = false ->
        truthy (getRefreshToken w) = false ->
        getValidAccessToken P config w = (Returned None, w)).
Proof.
  rewrite getValidAccessToken_eq.
  split; [|split; [|split; [|split]]].
  - repeat case_match; eauto.
  - destruct (truthy (getAccessToken w) && negb (isTokenExpired w)); [cbn; lia|].
    destruct (truthy (getRefreshToken w)); [|cbn; lia].
    destruct (refreshAccessToken P config w) as [[tokens|e] w1] eqn:Hr;
      apply refreshAccessToken_frame in Hr as (_ & _ & Hc); exact Hc.
  - now intros -> ->.
  - intros -> ->. split; [reflexivity|].
    intros tokens w1 Hr.
    apply refreshAccessToken_frame in Hr as (_ & Hok & _). now apply Hok.
  - now intros -> ->.
Qed.

(** *** handleCallback *)

Lemma handleCallback_eq (callbackUrl : option string) (w : World) :
  handleCallback P config callbackUrl w
  = match parseURL P (default (location_href w) callbackUrl) with
    | None => (Thrown InvalidURL, w)
    | Some url =>
        match validation url w with
        | Some e => (Thrown e, w)
        | None =>
            exchangeCode P config
              (of_value (searchParams_get "code" (searchParams url)))
              (of_value (getItem KEY_CODE_VERIFIER w))
              (removeItem KEY_CODE_VERIFIER (removeItem KEY_STATE w))
        end
    end.
Proof.
  unfold handleCallback, validation. rewrite bind_read. unfold new_URL.
  destruct (parseURL P _) as [url|]; [|reflexivity].
  rewrite bind_ret. cbn zeta.
  destruct (truthy (searchParams_get "error" _)); [reflexivity|].
  destruct (truthy (searchParams_get "code" _)); cbn [negb]; [|reflexivity].
  rewrite bind_read.
  destruct (negb (truthy (getItem KEY_STATE w)) || _); [reflexivity|].
  rewrite bind_read.
  destruct (truthy (getItem KEY_CODE_VERIFIER w)); cbn [negb]; [|reflexivity].
  now rewrite !bind_write.
Qed.

(** Without a saved state no callback gets past the guards. *)
Lemma handleCallback_without_state (callbackUrl : option string) (w : World) :
  truthy (getItem KEY_STATE w) = false ->
  exists e, handleCallback P config callbackUrl w = (Thrown e, w).
Proof.
  intros Hs. rewrite handleCallback_eq.
  destruct (parseURL P _) as [url|]; [|eauto].
  unfold validation. rewrite Hs. cbn [negb orb].
  destruct (truthy (searchParams_get "error" _)); [eauto|].
  destruct (truthy (searchParams_get "code" _)); cbn [negb]; eauto.
Qed.

Lemma pending_keys_not_session :
  (KEY_STATE ∉ session_keys) /\ (KEY_CODE_VERIFIER ∉ session_keys).
Proof. split; apply (bool_decide_unpack _); reflexivity. Qed.

(** The exchange touches session keys only. *)
Lemma exchangeCode_other_keys (code codeVerifier k : string) (w : World) :
  k ∉ session_keys ->
  getItem k (snd (exchangeCode P config code codeVerifier w)) = getItem k w.
Proof.
  intros Hk. unfold exchangeCode. unfold bind at 1.
  destruct (getDiscovery P config w) as [[d|e0] w1] eqn:Hd;
    destruct (getDiscovery_frame _ _ _ Hd) as (Hs1 & _).
  2:{ cbn. unfold getItem. now rewrite Hs1. }
  unfold bind at 1. rewrite fetch_eq.
  set (w2 := after_request _ _ w1).
  assert (getItem k w2 = getItem k w) as Hs2
    by (unfold getItem; cbn; now rewrite Hs1).
  destruct (answer _) as [res|]; [|exact Hs2].
  destruct (ok res); cbn [negb]; [|exact Hs2].
  unfold bind, res_json, write, ret, throw.
  destruct (body res) as [t|]; [destruct (json_tokens P t) as [tk|]|];
    cbn [snd]; rewrite ?storeTokens_other_keys by assumption; exact Hs2.
Qed.

(** C2, as the code has it: a callback whose state is not the saved one
    (or with no saved state) makes [handleCallback] throw and leaves the
    world as it was, so no request is sent; the exception is the state
    mismatch when the URL has no [error] and has a [code], and the
    OAuth error or the missing-code error otherwise. *)
Theorem handleCallback_state_mismatch
    (callbackUrl : option string) (w : World) (url : URL) :
  parseURL P (default (location_href w) callbackUrl) = Some url ->
  truthy (getItem KEY_STATE w) = false
    \/ getItem KEY_STATE w <> searchParams_get "state" (searchParams url) ->
  exists e,
    handleCallback P config callbackUrl w = (Thrown e, w)
    /\ sent (snd (handleCallback P config callbackUrl w)) = sent w
    /\ (truthy (searchParams_get "error" (searchParams url)) = false ->
        truthy (searchParams_get "code" (searchParams url)) = true ->
        e = StateMismatch)
    /\ (truthy (searchParams_get "error" (searchParams url)) = false ->
        truthy (searchParams_get "code" (searchParams url)) = false ->
        e = MissingCode)
    /\ (truthy (searchParams_get "error" (searchParams url)) = true ->
        exists desc, e = OAuthError desc).
Proof.
  intros Hu Hm. rewrite handleCallback_eq, Hu.
  assert (negb (truthy (getItem KEY_STATE w))
          || negb (bool_decide
                     (getItem KEY_STATE w
                      = searchParams_get "state" (searchParams url))) = true) as Hg.
  { destruct Hm as [-> | Hne]; [reflexivity|].
    rewrite bool_decide_eq_false_2 by assumption. apply orb_true_r. }
  unfold validation. rewrite Hg.
  destruct (truthy (searchParams_get "error" _));
    [|destruct (truthy (searchParams_get "code" _))]; cbn [negb];
    eexists; (split; [reflexivity|]); (split; [reflexivity|]);
    repeat split; intros; eauto; discriminate.
Qed.

(** C3, as the code has it: when the callback passes every guard, the
    pending request is removed before the exchange starts and is absent
    when the call ends, whatever the exchange does; when a guard throws
    (error parameter, missing code, state mismatch, missing verifier)
    the world, pending request included, is left as it was. *)
Theorem handleCallback_pending_request
    (callbackUrl : option string) (w : World) (url : URL) :
  parseURL P (default (location_href w) callbackUrl) = Some url ->
  (validation url w = None ->
     handleCallback P config callbackUrl w
     = exchangeCode P config
         (of_value (searchParams_get "code" (searchParams url)))
         (of_value (getItem KEY_CODE_VERIFIER w))
         (removeItem KEY_CODE_VERIFIER (removeItem KEY_STATE w))
     /\ getItem KEY_STATE (snd (handleCallback P config callbackUrl w)) = None
     /\ getItem KEY_CODE_VERIFIER (snd (handleCallback P config callbackUrl w)) = None)
  /\ (forall e, validation url w = Some e ->
        handleCallback P config callbackUrl w = (Thrown e, w)).
Proof.
  intros Hu. rewrite handleCallback_eq, Hu. split.
  - intros ->. split; [reflexivity|].
    destruct pending_keys_not_session as [Hs Hv].
    rewrite !exchangeCode_other_keys by assumption.
    rewrite !getItem_removeItem. split; repeat case_decide; congruence.
  - now intros e ->.
Qed.

(** *** signinSilent *)

Lemma resolve_null_not_tokens (a : SilentAttempt) :
  not_tokens a -> not_tokens (resolve None a).
Proof.
  unfold not_tokens, resolve. intros [H|H]; rewrite H; cbn; auto.
Qed.

Lemma cleanup_spec (a : SilentAttempt) (w : World) :
  settled (fst (cleanup a w)) = settled a
  /\ truthy (getItem KEY_STATE (snd (cleanup a w))) = false.
Proof.
  split; [reflexivity|]. cbn [snd cleanup].
  rewrite !getItem_removeItem. now repeat case_decide.
Qed.

Lemma deliver_not_tokens (ev : SilentEvent) (a : SilentAttempt) (w : World) :
  not_tokens a -> not_tokens (fst (deliver P config ev (a, w))).
Proof.
  intros Ha. unfold deliver.
  destruct ev as [|loc].
  - destruct (timer_armed a); [|exact Ha].
    unfold on_timeout, cleanup. cbn [fst]. now apply resolve_null_not_tokens.
  - destruct (iframe_attached a); [|exact Ha].
    unfold on_load.
    destruct loc as [|[iframeUrl|]]; [| |exact Ha].
    + unfold cleanup. cbn [fst]. now apply resolve_null_not_tokens.
    + destruct (truthy (Some iframeUrl) && _); [|exact Ha].
      destruct (cleanup_spec a w) as [Hs Hk].
      destruct (cleanup a w) as [a1 w1]. cbn [fst snd] in Hs, Hk.
      destruct (handleCallback_without_state (Some iframeUrl) w1 Hk) as [e ->].
      cbn [fst]. apply resolve_null_not_tokens.
      unfold not_tokens. now rewrite Hs.
Qed.

Lemma deliver_all_not_tokens (events : list SilentEvent) (aw : SilentAttempt * World) :
  not_tokens (fst aw) ->
  not_tokens (fst (List.fold_left (fun aw ev => deliver P config ev aw) events aw)).
Proof.
  revert aw. induction events as [|ev events IH]; intros [a w] Ha; [exact Ha|].
  cbn [List.fold_left]. apply IH.
  now apply deliver_not_tokens.
Qed.

(** The slip behind C1: whatever the events, [signinSilent] never
    resolves with a token set, because the load listener runs
    [cleanup], which removes the saved state, before [handleCallback]
    looks for it. *)
Lemma signinSilent_never_yields_tokens (events : list SilentEvent) (w : World) :
  let r := fst (signinSilent P config events w) in
  (exists e, r = Thrown e) \/ r = Returned None \/ r = Returned (Some None).
Proof.
  cbn zeta. unfold signinSilent, bind.
  destruct (signinSilent_start P config w) as [[a|e] w1] eqn:Hstart; [|eauto].
  assert (not_tokens a) as Ha.
  { revert Hstart. unfold signinSilent_start.
    unfold bind, write, ret, new_URL, throw, generatePkceChallenge, generateState.
    repeat case_match; intros; simplify_eq; now left. }
  pose proof (deliver_all_not_tokens events (a, w1) Ha) as Hall.
  destruct (List.fold_left _ events (a, w1)) as [a' w'].
  cbn [fst] in *. destruct Hall as [-> | ->]; auto.
Qed.

End WithPlatform.

End BrowserProperties.

(* ===================================================================== *)
(** ** The methods run on the concrete browser *)
(* ===================================================================== *)

Section Runs.
Import JsString Browser.

(** C1: the success path of the silent flow.  The iframe loads the
    redirect URI with a code and the state generated for this attempt,
    before any time-out, and the provider would exchange the code: the
    promise is resolved with [null], not with the token set.  The same
    callback handed to [handleCallback] before [cleanup] has run is
    exchanged for the token set. *)
Theorem signinSilent_success_path_resolves_null :
  let started := snd (signinSilent_start Demo.browser Demo.config Demo.fresh) in
  String.prefix (redirectUri Demo.config) Demo.silent_callback = true
  /\ (searchParams_get "state" <$> (searchParams <$> Demo.parseURL Demo.silent_callback))
     = Some (getItem KEY_STATE started)
  /\ fst (handleCallback Demo.browser Demo.config (Some Demo.silent_callback) started)
     = Returned Demo.tokens
  /\ fst (signinSilent Demo.browser Demo.config
            [IframeLoaded (Readable (Some Demo.silent_callback))] Demo.fresh)
     = Returned (Some None).
Proof. vm_compute. repeat split. Qed.

(** C2 as stated fails: a callback with the wrong state and an [error]
    parameter is refused with the OAuth error, not with the state
    mismatch. *)
Lemma state_mismatch_not_always_reported :
  ~ (forall (P : Platform) (config : BrowserIamConfig)
            (callbackUrl : option string) (w : World) (url : URL),
        parseURL P (default (location_href w) callbackUrl) = Some url ->
        getItem KEY_STATE w <> searchParams_get "state" (searchParams url) ->
        fst (handleCallback P config callbackUrl w) = Thrown StateMismatch).
Proof.
  intros Hclaim.
  specialize (Hclaim Demo.browser Demo.config
                (Some "https://app/cb?error=access_denied&state=evil") Demo.pending
                {| url_base := "https://app/cb";
                   searchParams := [("error", "access_denied"); ("state", "evil")] |}).
  assert (fst (handleCallback Demo.browser Demo.config
                 (Some "https://app/cb?error=access_denied&state=evil") Demo.pending)
          = Thrown (OAuthError "access_denied")) as Hrun
    by (vm_compute; reflexivity).
  rewrite Hrun in Hclaim.
  discriminate Hclaim.
  - vm_compute; reflexivity.
  - vm_compute. discriminate.
Qed.

Lemma handleCallback_state_mismatch_witness :
  exists e,
    handleCallback Demo.browser Demo.config
      (Some "https://app/cb?code=abc&state=evil") Demo.pending
    = (Thrown e, Demo.pending)
    /\ e = StateMismatch.
Proof.
  assert (getItem KEY_STATE Demo.pending
          <> searchParams_get "state" [("code", "abc"); ("state", "evil")]) as Hne
    by (vm_compute; discriminate).
  destruct (handleCallback_state_mismatch Demo.browser Demo.config
              (Some "https://app/cb?code=abc&state=evil") Demo.pending
              {| url_base := "https://app/cb";
                 searchParams := [("code", "abc"); ("state", "evil")] |}
              eq_refl (or_intror Hne))
    as (e & Hrun & _ & Hcsrf & _).
  exists e. split; [exact Hrun | exact (Hcsrf eq_refl eq_refl)].
Defined.

(** C3 as stated fails: after a callback refused for its state, the
    pending request is still in storage. *)
Lemma refused_callback_keeps_pending_request :
  ~ (forall (P : Platform) (config : BrowserIamConfig)
            (callbackUrl : option string) (w : World),
        is_Some (getItem KEY_STATE w) ->
        is_Some (getItem KEY_CODE_VERIFIER w) ->
        getItem KEY_STATE (snd (handleCallback P config callbackUrl w)) = None
        /\ getItem KEY_CODE_VERIFIER (snd (handleCallback P config callbackUrl w)) = None).
Proof.
  intros Hclaim.
  destruct (Hclaim Demo.browser Demo.config
              (Some "https://app/cb?code=abc&state=evil") Demo.pending)
    as [Hstate _].
  - vm_compute. eauto.
  - vm_compute. eauto.
  - vm_compute in Hstate. discriminate Hstate.
Qed.

Lemma handleCallback_pending_request_witness :
  getItem KEY_STATE
    (snd (handleCallback Demo.browser Demo.config
            (Some "https://app/cb?code=abc&state=s-1") Demo.pending)) = None
  /\ handleCallback Demo.browser Demo.config
       (Some "https://app/cb?code=abc&state=evil") Demo.pending
     = (Thrown StateMismatch, Demo.pending).
Proof.
  split.
  - exact (proj1 (proj2 (proj1
             (handleCallback_pending_request Demo.browser Demo.config
                (Some "https://app/cb?code=abc&state=s-1") Demo.pending
                {| url_base := "https://app/cb";
                   searchParams := [("code", "abc"); ("state", "s-1")] |}
                eq_refl)
             eq_refl))).
  - exact (proj2
             (handleCallback_pending_request Demo.browser Demo.config
                (Some "https://app/cb?code=abc&state=evil") Demo.pending
                {| url_base := "https://app/cb";
                   searchParams := [("code", "abc"); ("state", "evil")] |}
                eq_refl)
             StateMismatch eq_refl).
Defined.

Lemma getValidAccessToken_total_witness :
  fst (getValidAccessToken Demo.browser Demo.config Demo.pending) = Returned (Some "at-2")
  /\ fst (getValidAccessToken (Demo.platform Demo.refusing) Demo.config Demo.pending)
     = Returned None
  /\ getValidAccessToken Demo.browser Demo.config (at_time 1500000000000 Demo.pending)
     = (Returned (Some "at-1"), at_time 1500000000000 Demo.pending).
Proof.
  split; [|split].
  - rewrite (proj1 (proj1 (proj2 (proj2 (proj2
               (getValidAccessToken_total Demo.browser Demo.config Demo.pending))))
               eq_refl eq_refl)).
    vm_compute. reflexivity.
  - rewrite (proj1 (proj1 (proj2 (proj2 (proj2
               (getValidAccessToken_total (Demo.platform Demo.refusing)
                  Demo.config Demo.pending))))
               eq_refl eq_refl)).
    vm_compute. reflexivity.
  - exact (proj1 (proj2 (proj2
             (getValidAccessToken_total Demo.browser Demo.config
                (at_time 1500000000000 Demo.pending))))
             eq_refl eq_refl).
Defined.

(** C7 as stated fails: a metadata document without any endpoint is
    returned, and cached. *)
Lemma getDiscovery_accepts_missing_endpoints :
  ~ (forall (P : Platform) (config : BrowserIamConfig) (w w' : World)
            (d : OidcDiscovery),
        getDiscovery P config w = (Returned d, w') ->
        is_Some (authorization_endpoint d)
        /\ is_Some (token_endpoint d)
        /\ is_Some (userinfo_endpoint d))
  /\ discoveryCache
       (snd (getDiscovery (Demo.platform Demo.bare) Demo.config Demo.fresh))
     = Some Demo.no_endpoints.
Proof.
  split; [|vm_compute; reflexivity].
  intros Hclaim.
  destruct (Hclaim (Demo.platform Demo.bare) Demo.config Demo.fresh
              (snd (getDiscovery (Demo.platform Demo.bare) Demo.config Demo.fresh))
              Demo.no_endpoints)
    as [[x Hx] _].
  - vm_compute. reflexivity.
  - discriminate Hx.
Qed.

Lemma getDiscovery_outcomes_witness :
  fst (getDiscovery (Demo.platform Demo.down) Demo.config Demo.fresh)
    = Thrown (DiscoveryFailed 503)
  /\ fst (getDiscovery Demo.browser Demo.config Demo.fresh) = Returned Demo.discovery.
Proof.
  split.
  - rewrite (proj1 (proj2 (proj2
               (getDiscovery_outcomes (Demo.platform Demo.down) Demo.config
                  Demo.fresh eq_refl)))
               {| status := 503; body := Some "" |} eq_refl eq_refl).
    reflexivity.
  - rewrite (proj2 (proj2 (proj2 (proj2
               (getDiscovery_outcomes Demo.browser Demo.config Demo.fresh eq_refl))))
               {| status := 200; body := Some "discovery document" |}
               Demo.discovery eq_refl eq_refl eq_refl).
    reflexivity.
Defined.

Lemma refreshAccessToken_failure_keeps_tokens_witness :
  let w' := snd (refreshAccessToken (Demo.platform Demo.refusing)
                   Demo.config Demo.pending) in
  fst (refreshAccessToken (Demo.platform Demo.refusing) Demo.config Demo.pending)
    = Thrown (TokenRefreshFailed 400 "invalid_grant")
  /\ getAccessToken w' = Some "at-1"
  /\ getRefreshToken w' = Some "rt-1"
  /\ fst (refreshAccessToken Demo.browser Demo.config Demo.fresh) = Thrown NoRefreshToken
  /\ storage (snd (refreshAccessToken Demo.browser Demo.config Demo.fresh))
     = storage Demo.fresh.
Proof.
  cbn zeta.
  assert (refreshAccessToken (Demo.platform Demo.refusing) Demo.config Demo.pending
          = (Thrown (TokenRefreshFailed 400 "invalid_grant"),
             snd (refreshAccessToken (Demo.platform Demo.refusing)
                    Demo.config Demo.pending))) as Hrun
    by (vm_compute; reflexivity).
  destruct (refreshAccessToken_failure_keeps_tokens _ _ _ _ _ Hrun)
    as (_ & Hat & Hrt & _).
  split; [now rewrite Hrun|].
  split; [rewrite Hat; vm_compute; reflexivity|].
  split; [rewrite Hrt; vm_compute; reflexivity|].
  split; [reflexivity|].
  exact (proj1 (refreshAccessToken_failure_keeps_tokens
                  Demo.browser Demo.config Demo.fresh
                  (snd (refreshAccessToken Demo.browser Demo.config Demo.fresh))
                  NoRefreshToken eq_refl)).
Defined.

End Runs.

(* ===================================================================== *)
(** ** Further properties of pkce.ts *)
(* ===================================================================== *)

Section PkceFurther.
Import JsString Pkce Base64Url.

(** *** The characters of a random string *)

Lemma two_digits_base36 (b : byte) :
  List.Forall (fun c => List.In c base36_alphabet) (two_digits b).
Proof.
  assert (List.forallb
            (fun c => List.existsb (Ascii.eqb c) base36_alphabet) (two_digits b)
          = true) as Hall by (destruct b; reflexivity).
  rewrite List.forallb_forall in Hall.
  apply List.Forall_forall. intros c Hc. specialize (Hall c Hc).
  apply List.existsb_exists in Hall as (x & Hx & E).
  apply Ascii.eqb_eq in E. now subst.
Qed.

Lemma digits_base36 (array : list byte) :
  List.Forall (fun c => List.In c base36_alphabet) (digits array).
Proof.
  induction array as [|b array IH]; [constructor|].
  rewrite digits_cons. apply List.Forall_app. split; [apply two_digits_base36 | exact IH].
Qed.

(** X1: whatever the length asked for and whatever the random bytes,
    [generateRandomString] returns a string of exactly that length made
    of digits and lower-case letters only. *)
Theorem generateRandomString_shape (source : nat -> byte) (pos n : nat) :
  let s := fst (generateRandomString source pos n) in
  String.length s = n
  /\ List.Forall (fun c => List.In c base36_alphabet) (list_ascii_of_string s).
Proof.
  cbn -[randomString_of getRandomValues]. split.
  - apply length_randomString_of, length_getRandomValues.
  - unfold randomString_of, slice0.
    rewrite list_ascii_of_string_of_list_ascii.
    apply list.Forall_take.
    apply (digits_base36 (getRandomValues source pos n)).
Qed.

(** *** The characters and the length of a base64url string *)

Lemma sextet_in_alphabet (n : N) : List.In (sextet url_alphabet n) url_alphabet.
Proof.
  unfold sextet.
  destruct (List.nth_in_or_default (N.to_nat n) url_alphabet "A"%char) as [Hin | ->];
    [exact Hin | now left].
Qed.

Lemma quad_in_alphabet (a b c : N) :
  List.Forall (fun x => List.In x url_alphabet) (quad url_alphabet a b c).
Proof.
  unfold quad.
  repeat (apply List.Forall_cons; [apply sextet_in_alphabet|]).
  apply List.Forall_nil.
Qed.

Lemma base64url_unpadded_alphabet (bytes : list byte) :
  List.Forall (fun x => List.In x url_alphabet) (base64url_unpadded bytes).
Proof.
  induction bytes as [|a|a b|a b c rest IH] using triples_ind;
    cbn [base64url_unpadded].
  - constructor.
  - apply list.Forall_take, quad_in_alphabet.
  - apply list.Forall_take, quad_in_alphabet.
  - apply List.Forall_app. split; [apply quad_in_alphabet | exact IH].
Qed.

Lemma length_base64url_unpadded (bytes : list byte) :
  List.length (base64url_unpadded bytes) = (4 * List.length bytes + 2) / 3.
Proof.
  induction bytes as [|a|a b|a b c rest IH] using triples_ind;
    cbn [base64url_unpadded]; try reflexivity.
  rewrite List.length_app, IH. cbn [List.length quad].
  replace (4 * S (S (S (List.length rest))) + 2)
    with ((4 * List.length rest + 2) + 4 * 3) by lia.
  rewrite Nat.div_add by lia. lia.
Qed.

(** X2: the output of [base64UrlEncode] consists of letters, digits, [-]
    and [_] only: it never contains [+], [/] or the padding [=]. *)
Theorem base64UrlEncode_url_safe (buffer : list byte) :
  let text := list_ascii_of_string (base64UrlEncode buffer) in
  List.Forall (fun c => List.In c url_alphabet) text
  /\ ~ List.In "+"%char text /\ ~ List.In "/"%char text /\ ~ List.In "="%char text.
Proof.
  cbn zeta. rewrite base64UrlEncode_unpadded, list_ascii_of_string_of_list_ascii.
  pose proof (base64url_unpadded_alphabet buffer) as Hall.
  split; [exact Hall|].
  rewrite List.Forall_forall in Hall.
  repeat split; intros Hin; apply Hall in Hin;
    cbn in Hin; repeat (destruct Hin as [Hin|Hin]; [discriminate Hin|]);
    exact Hin.
Qed.

(** X3: [base64UrlEncode] turns [n] bytes into [ceil(4n/3)] characters;
    with a digest of 32 bytes, as SHA-256 gives, the code challenge of
    [generatePkceChallenge] has 43 characters. *)
Theorem codeChallenge_length
    (SHA256 : list byte -> list byte) (source : nat -> byte) (pos : nat) :
  (forall message, List.length (SHA256 message) = 32) ->
  (forall buffer,
      String.length (base64UrlEncode buffer) = (4 * List.length buffer + 2) / 3)
  /\ String.length (codeChallenge (fst (generatePkceChallenge SHA256 source pos))) = 43.
Proof.
  intros Hdigest.
  assert (forall buffer,
             String.length (base64UrlEncode buffer)
             = (4 * List.length buffer + 2) / 3) as Hlen.
  { intros buffer.
    now rewrite base64UrlEncode_unpadded, length_string_of_list_ascii,
      length_base64url_unpadded. }
  split; [exact Hlen|].
  cbn -[base64UrlEncode randomString_of getRandomValues].
  rewrite Hlen. unfold sha256. now rewrite Hdigest.
Qed.

Lemma codeChallenge_length_witness :
  String.length
    (codeChallenge
       (fst (generatePkceChallenge (Browser.SHA256 Demo.browser) (fun _ => x2a) 0)))
  = 43.
Proof.
  refine (proj2 (codeChallenge_length (Browser.SHA256 Demo.browser) (fun _ => x2a) 0 _)).
  intros message. unfold Demo.browser, Demo.platform. cbn [Browser.SHA256].
  rewrite List.length_firstn, List.length_app, List.repeat_length. lia.
Defined.

(** *** Decoding *)

Lemma in_below (n : nat) (x : N) : (x < N.of_nat n)%N -> List.In x (below n).
Proof.
  intros Hx. unfold below. apply List.in_map_iff.
  exists (N.to_nat x). split; [apply N2Nat.id|].
  apply List.in_seq. lia.
Qed.

(** A property of numbers below [n] that a run over all of them finds
    true. *)
Lemma checked_below (n : nat) (f : N -> bool) :
  List.forallb f (below n) = true -> forall x, (x < N.of_nat n)%N -> f x = true.
Proof.
  intros Hall x Hx. rewrite List.forallb_forall in Hall.
  apply Hall, in_below, Hx.
Qed.

Lemma byte_below (b : byte) : (Byte.to_N b < N.of_nat 256)%N.
Proof. pose proof (Byte.to_N_bounded b). lia. Qed.

Lemma unsextet_sextet (n : N) :
  (n < 64)%N -> unsextet (sextet url_alphabet n) = Some n.
Proof.
  intros Hn.
  assert (bool_decide (unsextet (sextet url_alphabet n) = Some n) = true) as H.
  { revert n Hn.
    apply (checked_below 64
             (fun n => bool_decide (unsextet (sextet url_alphabet n) = Some n))).
    vm_compute. reflexivity. }
  now apply bool_decide_eq_true in H.
Qed.

Lemma first_ok_all (a b : byte) : first_ok (Byte.to_N a) (Byte.to_N b) = true.
Proof.
  generalize (Byte.to_N b) (byte_below b). generalize (Byte.to_N a) (byte_below a).
  intros x Hx.
  apply (checked_below 256 (fun y => first_ok x y)).
  revert x Hx.
  apply (checked_below 256 (fun x => List.forallb (fun y => first_ok x y) (below 256))).
  vm_compute. reflexivity.
Qed.

Lemma last_ok_all (b c : byte) : last_ok (Byte.to_N b) (Byte.to_N c) = true.
Proof.
  generalize (Byte.to_N c) (byte_below c). generalize (Byte.to_N b) (byte_below b).
  intros x Hx.
  apply (checked_below 256 (fun y => last_ok x y)).
  revert x Hx.
  apply (checked_below 256 (fun x => List.forallb (fun y => last_ok x y) (below 256))).
  vm_compute. reflexivity.
Qed.

(** What decoding finds in the first two characters of a group. *)
Lemma decode_first (a b : byte) :
  let s1 := N.shiftr (Byte.to_N a) 2 in
  let s2 := N.lor (N.shiftl (N.land (Byte.to_N a) 3) 4) (N.shiftr (Byte.to_N b) 4) in
  unsextet (sextet url_alphabet s1) = Some s1
  /\ unsextet (sextet url_alphabet s2) = Some s2
  /\ byte1 s1 s2 = Some a
  /\ N.land s2 15 = N.shiftr (Byte.to_N b) 4.
Proof.
  cbn zeta. pose proof (first_ok_all a b) as H. unfold first_ok in H.
  cbn zeta in H.
  apply andb_prop in H as [H H4]. apply andb_prop in H as [H H3].
  apply andb_prop in H as [H1 H2].
  apply N.ltb_lt in H1, H2. apply N.eqb_eq in H3, H4.
  repeat split; try (now apply unsextet_sextet); try assumption.
  unfold byte1. rewrite H3. apply Byte.of_to_N.
Qed.

(** What decoding finds in the last two characters of a group. *)
Lemma decode_last (a b c : byte) :
  let s2 := N.lor (N.shiftl (N.land (Byte.to_N a) 3) 4) (N.shiftr (Byte.to_N b) 4) in
  let s3 := N.lor (N.shiftl (N.land (Byte.to_N b) 15) 2) (N.shiftr (Byte.to_N c) 6) in
  let s4 := N.land (Byte.to_N c) 63 in
  unsextet (sextet url_alphabet s3) = Some s3
  /\ unsextet (sextet url_alphabet s4) = Some s4
  /\ byte2 s2 s3 = Some b
  /\ byte3 s3 s4 = Some c.
Proof.
  cbn zeta. destruct (decode_first a b) as (_ & _ & _ & Hhigh). cbn zeta in Hhigh.
  pose proof (last_ok_all b c) as H. unfold last_ok in H. cbn zeta in H.
  apply andb_prop in H as [H H4]. apply andb_prop in H as [H H3].
  apply andb_prop in H as [H1 H2].
  apply N.ltb_lt in H1, H2. apply N.eqb_eq in H3, H4.
  repeat split; try (now apply unsextet_sextet).
  - unfold byte2. rewrite Hhigh, H3. apply Byte.of_to_N.
  - unfold byte3. rewrite H4. apply Byte.of_to_N.
Qed.

(** Decoding undoes the encoding. *)
Lemma decode_base64url_unpadded (bytes : list byte) :
  decode (base64url_unpadded bytes) = Some bytes.
Proof.
  induction bytes as [|a|a b|a b c rest IH] using triples_ind.
  - reflexivity.
  - destruct (decode_first a x00) as (E1 & E2 & B1 & _). cbn zeta in *.
    cbn [base64url_unpadded quad firstn decode].
    change (Byte.to_N x00) with 0%N in *.
    rewrite E1, E2. cbn [mbind option_bind]. now rewrite B1.
  - destruct (decode_first a b) as (E1 & E2 & B1 & _).
    destruct (decode_last a b x00) as (E3 & _ & B2 & _). cbn zeta in *.
    cbn [base64url_unpadded quad firstn decode].
    change (Byte.to_N x00) with 0%N in *.
    rewrite E1, E2, E3. cbn [mbind option_bind]. rewrite B1. cbn [mbind option_bind].
    now rewrite B2.
  - destruct (decode_first a b) as (E1 & E2 & B1 & _).
    destruct (decode_last a b c) as (E3 & E4 & B2 & B3). cbn zeta in *.
    cbn [base64url_unpadded quad app decode].
    rewrite E1, E2, E3, E4. cbn [mbind option_bind].
    rewrite B1. cbn [mbind option_bind]. rewrite B2. cbn [mbind option_bind].
    rewrite B3. cbn [mbind option_bind].
    fold decode. now rewrite IH.
Qed.

(** X4: [base64UrlEncode] loses nothing: the bytes can be read back from
    its output, so two different digests never give the same code
    challenge. *)
Theorem base64UrlEncode_injective (buffer buffer' : list byte) :
  decode (list_ascii_of_string (base64UrlEncode buffer)) = Some buffer
  /\ (base64UrlEncode buffer = base64UrlEncode buffer' -> buffer = buffer').
Proof.
  assert (forall b, decode (list_ascii_of_string (base64UrlEncode b)) = Some b) as Hdec.
  { intros b. rewrite base64UrlEncode_unpadded, list_ascii_of_string_of_list_ascii.
    apply decode_base64url_unpadded. }
  split; [apply Hdec|].
  intros E. pose proof (Hdec buffer) as H. rewrite E, Hdec in H. now injection H.
Qed.

Lemma base64UrlEncode_injective_witness :
  decode (list_ascii_of_string "-_8") = Some [xfb; xff]
  /\ [xfb; xff] = [xfb; xff].
Proof.
  split.
  - exact (proj1 (base64UrlEncode_injective [xfb; xff] [xfb; xff])).
  - exact (proj2 (base64UrlEncode_injective [xfb; xff] [xfb; xff]) eq_refl).
Defined.

End PkceFurther.

(* ===================================================================== *)
(** ** Further properties of browser.ts *)
(* ===================================================================== *)

Section BrowserFurther.
Import JsString Browser Flows.

(** *** Trailing slashes *)

Lemma strip_trailing_repeat (c : ascii) (s : list ascii) (n : nat) :
  strip_trailing c (s ++ List.repeat c n) = strip_trailing c s.
Proof.
  induction s as [|x s IH].
  - induction n as [|n IHn]; [reflexivity|].
    cbn [List.repeat app strip_trailing] in *. rewrite IHn.
    now rewrite Ascii.eqb_refl.
  - cbn [app strip_trailing]. now rewrite IH.
Qed.

Lemma strip_trailing_last (c : ascii) (s : list ascii) :
  List.last (strip_trailing c s) "x"%char = c -> strip_trailing c s = [].
Proof.
  induction s as [|x s IH]; [reflexivity|].
  cbn [strip_trailing].
  destruct (strip_trailing c s) as [|y r] eqn:E.
  - destruct (Ascii.eqb_spec x c) as [|Hne]; [reflexivity|].
    cbn. intros Hx. now destruct Hne.
  - intros Hlast. change (List.last (x :: y :: r) "x"%char)
      with (List.last (y :: r) "x"%char) in Hlast.
    now specialize (IH Hlast).
Qed.

Lemma list_ascii_of_string_app (s t : string) :
  list_ascii_of_string (String.append s t)
  = list_ascii_of_string s ++ list_ascii_of_string t.
Proof.
  induction s as [|x s IH]; [reflexivity|].
  simpl. f_equal. exact IH.
Qed.

(** X5: trailing slashes of [serverUrl] make no difference: however many
    there are, the discovery request, the signup URL and the profile URL
    are those of the URL without them, and the base they are built on
    ends in no slash unless it is empty. *)
Theorem serverUrl_trailing_slashes
    (config : BrowserIamConfig) (n : nat)
    (appName orgName : option string) (enablePassword : bool) (username : string) :
  let config' := with_serverUrl (serverUrl config ++ slashes n) config in
  discovery_request config' = discovery_request config
  /\ getSignupUrl config' appName orgName enablePassword
     = getSignupUrl config appName orgName enablePassword
  /\ getUserProfileUrl config' orgName username
     = getUserProfileUrl config orgName username
  /\ (baseUrl config <> "" ->
      List.last (list_ascii_of_string (baseUrl config)) "x"%char <> "/"%char).
Proof.
  cbn zeta.
  assert (baseUrl (with_serverUrl (serverUrl config ++ slashes n) config)
          = baseUrl config) as Hbase.
  { unfold baseUrl, with_serverUrl, slashes. cbn [serverUrl]. f_equal.
    rewrite list_ascii_of_string_app, list_ascii_of_string_of_list_ascii.
    apply strip_trailing_repeat. }
  unfold discovery_request, getSignupUrl, getUserProfileUrl.
  rewrite Hbase. repeat split.
  intros Hne Hlast. apply Hne. unfold baseUrl in *.
  rewrite list_ascii_of_string_of_list_ascii in Hlast.
  now rewrite (strip_trailing_last _ _ Hlast).
Qed.

(** *** The discovery cache *)

Lemma getDiscovery_caches
    (P : Platform) (config : BrowserIamConfig) (w w1 : World) (d : OidcDiscovery) :
  getDiscovery P config w = (Returned d, w1) -> discoveryCache w1 = Some d.
Proof.
  destruct (discoveryCache w) as [d0|] eqn:Hc.
  - rewrite (getDiscovery_cached P config w d0 Hc). now intros [= <- <-].
  - rewrite (getDiscovery_uncached P config w Hc). cbn zeta.
    repeat case_match; intros; simplify_eq; reflexivity.
Qed.



(** *** The token store *)

Lemma getItem_clearTokens (w : World) (k : string) :
  getItem k (clearTokens w)
  = if bool_decide (k ∈ all_keys) then None else getItem k w.
Proof.
  unfold clearTokens. rewrite !getItem_removeItem.
  unfold all_keys. case_bool_decide as Hin.
  - repeat (apply elem_of_cons in Hin as [-> | Hin]); try reflexivity.
    now apply elem_of_nil in Hin.
  - repeat (apply not_elem_of_cons in Hin as [? Hin]).
    repeat case_decide; congruence.
Qed.

(** X7: [clearTokens] removes the six keys of the SDK and nothing else;
    afterwards the token counts as expired and [getValidAccessToken]
    returns [null] without sending a request. *)
Theorem clearTokens_logs_out
    (P : Platform) (config : BrowserIamConfig) (w : World) (k : string) :
  let w' := clearTokens w in
  (k ∈ all_keys -> getItem k w' = None)
  /\ (k ∉ all_keys -> getItem k w' = getItem k w)
  /\ isTokenExpired w' = true
  /\ getValidAccessToken P config w' = (Returned None, w').
Proof.
  cbn zeta. pose proof (getItem_clearTokens w) as Hget.
  split; [|split; [|split]].
  - intros Hin. rewrite Hget. now rewrite bool_decide_eq_true_2.
  - intros Hin. rewrite Hget. now rewrite bool_decide_eq_false_2.
  - unfold isTokenExpired. now rewrite Hget.
  - rewrite getValidAccessToken_eq.
    unfold getAccessToken, getRefreshToken. now rewrite !Hget.
Qed.

Lemma clearTokens_logs_out_witness :
  getItem KEY_REFRESH_TOKEN (clearTokens Scenario.signed_in) = None
  /\ getItem "theme" (clearTokens Scenario.signed_in) = Some "dark".
Proof.
  split.
  - refine (proj1 (clearTokens_logs_out Demo.browser Demo.config
                     Scenario.signed_in KEY_REFRESH_TOKEN) _).
    apply (bool_decide_unpack _). reflexivity.
  - refine (proj1 (proj2 (clearTokens_logs_out Demo.browser Demo.config
                            Scenario.signed_in "theme")) _).
    apply (bool_decide_unpack _). reflexivity.
Defined.

(** X8: for a given storage, expiry is for good: once [isTokenExpired]
    is true it stays true at every later reading of the clock. *)
Theorem isTokenExpired_monotone (w : World) (t1 t2 : Z) :
  (t1 <= t2)%Z ->
  isTokenExpired (at_time t1 w) = true ->
  isTokenExpired (at_time t2 w) = true.
Proof.
  intros Ht. unfold isTokenExpired.
  change (getItem KEY_EXPIRES_AT (at_time t1 w)) with (getItem KEY_EXPIRES_AT w).
  change (getItem KEY_EXPIRES_AT (at_time t2 w)) with (getItem KEY_EXPIRES_AT w).
  destruct (negb (truthy (getItem KEY_EXPIRES_AT w))); [reflexivity|].
  destruct (to_number _) as [n|]; [|discriminate].
  cbn [now at_time]. lia.
Qed.

Lemma isTokenExpired_monotone_witness :
  isTokenExpired (at_time 1700000900000 Scenario.signed_in) = true
  /\ isTokenExpired (at_time 1800000000000 Scenario.signed_in) = true.
Proof.
  split; [reflexivity|].
  refine (isTokenExpired_monotone Scenario.signed_in
            1700000900000 1800000000000 _ eq_refl).
  lia.
Defined.

Lemma getRefreshToken_storeTokens (tokens : TokenResponse) (w : World) :
  getRefreshToken (storeTokens tokens w)
  = (if truthy (refresh_token tokens) then refresh_token tokens
     else getRefreshToken w).
Proof.
  assert (KEY_ACCESS_TOKEN <> KEY_REFRESH_TOKEN /\ KEY_ID_TOKEN <> KEY_REFRESH_TOKEN
          /\ KEY_EXPIRES_AT <> KEY_REFRESH_TOKEN)
    as (? & ? & ?) by (repeat split; discriminate).
  unfold getRefreshToken, storeTokens.
  destruct (refresh_token tokens) as [r|] eqn:Hr; cbn [truthy of_value];
    repeat match goal with
           | |- context [match ?x with _ => _ end] => destruct x
           end;
    rewrite ?getItem_setItem_ne by assumption;
    rewrite ?getItem_setItem_eq; reflexivity.
Qed.

(** X9: what [storeTokens] stores is what the getters return: the access
    token always, the refresh token and the ID token when the response
    has one (the earlier one stays otherwise); keys other than the four
    session keys are not touched. *)
Theorem storeTokens_round_trip (tokens : TokenResponse) (w : World) (k : string) :
  let w' := storeTokens tokens w in
  getAccessToken w' = Some (access_token tokens)
  /\ getRefreshToken w'
     = (if truthy (refresh_token tokens) then refresh_token tokens
        else getRefreshToken w)
  /\ getIdToken w'
     = (if truthy (id_token tokens) then id_token tokens else getIdToken w)
  /\ (k ∉ session_keys -> getItem k w' = getItem k w).
Proof.
  cbn zeta.
  assert (KEY_ACCESS_TOKEN <> KEY_REFRESH_TOKEN /\ KEY_ID_TOKEN <> KEY_REFRESH_TOKEN
          /\ KEY_EXPIRES_AT <> KEY_REFRESH_TOKEN /\ KEY_ACCESS_TOKEN <> KEY_ID_TOKEN
          /\ KEY_REFRESH_TOKEN <> KEY_ID_TOKEN /\ KEY_EXPIRES_AT <> KEY_ID_TOKEN)
    as (? & ? & ? & ? & ? & ?) by (repeat split; discriminate).
  split; [apply getAccessToken_storeTokens|].
  split; [|split].
  - apply getRefreshToken_storeTokens.
  - unfold getIdToken, storeTokens.
    destruct (id_token tokens) as [r|] eqn:Hr; cbn [truthy of_value];
      repeat match goal with
             | |- context [match ?x with _ => _ end] => destruct x
             end;
      rewrite ?getItem_setItem_ne by assumption;
      rewrite ?getItem_setItem_eq; reflexivity.
  - apply storeTokens_other_keys.
Qed.

Lemma storeTokens_round_trip_witness :
  getRefreshToken (storeTokens Demo.tokens Scenario.signed_in) = Some "rt-2"
  /\ getItem "theme" (storeTokens Demo.tokens Scenario.signed_in) = Some "dark".
Proof.
  split.
  - exact (proj1 (proj2 (storeTokens_round_trip Demo.tokens Scenario.signed_in "theme"))).
  - refine (proj2 (proj2 (proj2
              (storeTokens_round_trip Demo.tokens Scenario.signed_in "theme"))) _).
    apply (bool_decide_unpack _). reflexivity.
Defined.

(** X10: for any lifetime [e] other than zero, the token stored counts
    as expired exactly from [e] seconds after the storing on (at once
    when [e] is negative); a lifetime of zero is treated like a missing
    one: the earlier expiry stays in storage. *)
Theorem storeTokens_lifetime (tokens : TokenResponse) (w : World) (e : Z) :
  expires_in tokens = Some e ->
  let w' := storeTokens tokens w in
  (e <> 0%Z ->
     forall t, isTokenExpired (at_time t w') = (now w + e * 1000 <=? t)%Z)
  /\ (e = 0%Z -> getItem KEY_EXPIRES_AT w' = getItem KEY_EXPIRES_AT w).
Proof.
  intros He. cbn zeta.
  assert (KEY_ACCESS_TOKEN <> KEY_EXPIRES_AT /\ KEY_REFRESH_TOKEN <> KEY_EXPIRES_AT
          /\ KEY_ID_TOKEN <> KEY_EXPIRES_AT)
    as (? & ? & ?) by (repeat split; discriminate).
  split.
  - intros Hne t. unfold isTokenExpired.
    change (getItem KEY_EXPIRES_AT (at_time t (storeTokens tokens w)))
      with (getItem KEY_EXPIRES_AT (storeTokens tokens w)).
    assert (getItem KEY_EXPIRES_AT (storeTokens tokens w)
            = Some (of_int (now w + e * 1000))) as ->.
    { unfold storeTokens. rewrite He.
      destruct (Z.eqb_spec e 0) as [|_]; [contradiction|].
      rewrite getItem_setItem_eq. do 3 f_equal.
      repeat match goal with
             | |- context [if ?x then _ else _] => destruct x
             end; reflexivity. }
    rewrite truthy_of_int. cbn [negb of_value]. now rewrite to_number_of_int.
  - intros ->. unfold storeTokens. rewrite He. cbn [Z.eqb].
    repeat match goal with
           | |- context [if ?x then _ else _] => destruct x
           end;
      rewrite ?getItem_setItem_ne by assumption; reflexivity.
Qed.

Lemma storeTokens_lifetime_witness :
  isTokenExpired (at_time 1700000029999 (storeTokens Scenario.short_lived Scenario.signed_in))
    = false
  /\ isTokenExpired (at_time 1700000030000 (storeTokens Scenario.short_lived Scenario.signed_in))
    = true.
Proof.
  pose proof (proj1 (storeTokens_lifetime Scenario.short_lived Scenario.signed_in 30
                       eq_refl)) as H.
  assert (30 <> 0)%Z as Hne by lia.
  split.
  - exact (H Hne 1700000029999%Z).
  - exact (H Hne 1700000030000%Z).
Defined.

(** *** Token requests *)

Lemma token_response_eq
    (P : Platform) (req : Request) (failed : Z -> string -> Error) (w : World) :
  bind (fetch P req)
    (fun res =>
       if negb (ok res) then throw (failed (status res) (res_text_or_empty res))
       else
         bind (res_json (json_tokens P) res)
           (fun tokens => bind (write (storeTokens tokens)) (fun _ => ret tokens))) w
  = let rt := network P (sent w) req in
    let w1 := after_request req (took rt) w in
    match answer rt with
    | None => (Thrown FetchRejected, w1)
    | Some res =>
        if ok res then
          match body res ≫= json_tokens P with
          | Some tokens => (Returned tokens, storeTokens tokens w1)
          | None => (Thrown BodyRejected, w1)
          end
        else (Thrown (failed (status res) (res_text_or_empty res)), w1)
    end.
Proof.
  cbn zeta. unfold bind at 1. rewrite fetch_eq.
  destruct (answer _) as [res|]; [|reflexivity].
  destruct (ok res); cbn [negb]; [|reflexivity].
  unfold bind, res_json, write, ret, throw.
  destruct (body res) as [t|]; cbn; [|reflexivity].
  now destruct (json_tokens P t).
Qed.

(** [exchangeCode] by cases. *)
Lemma exchangeCode_eq
    (P : Platform) (config : BrowserIamConfig) (code codeVerifier : string) (w : World) :
  exchangeCode P config code codeVerifier w
  = match getDiscovery P config w with
    | (Thrown e, w0) => (Thrown e, w0)
    | (Returned d, w0) =>
        let req := code_request config d code codeVerifier in
        let rt := network P (sent w0) req in
        let w1 := after_request req (took rt) w0 in
        match answer rt with
        | None => (Thrown FetchRejected, w1)
        | Some res =>
            if ok res then
              match body res ≫= json_tokens P with
              | Some tokens => (Returned tokens, storeTokens tokens w1)
              | None => (Thrown BodyRejected, w1)
              end
            else (Thrown (TokenExchangeFailed (status res) (res_text_or_empty res)), w1)
        end
    end.
Proof.
  unfold exchangeCode. unfold bind at 1.
  destruct (getDiscovery P config w) as [[d|e] w0]; [|reflexivity].
  apply (token_response_eq P (code_request config d code codeVerifier)
           TokenExchangeFailed).
Qed.

(** [refreshAccessToken] by cases. *)
Lemma refreshAccessToken_eq (P : Platform) (config : BrowserIamConfig) (w : World) :
  refreshAccessToken P config w
  = if truthy (getRefreshToken w) then
      match getDiscovery P config w with
      | (Thrown e, w0) => (Thrown e, w0)
      | (Returned d, w0) =>
          let req := refresh_request config d (of_value (getRefreshToken w)) in
          let rt := network P (sent w0) req in
          let w1 := after_request req (took rt) w0 in
          match answer rt with
          | None => (Thrown FetchRejected, w1)
          | Some res =>
              if ok res then
                match body res ≫= json_tokens P with
                | Some tokens => (Returned tokens, storeTokens tokens w1)
                | None => (Thrown BodyRejected, w1)
                end
              else (Thrown (TokenRefreshFailed (status res) (res_text_or_empty res)), w1)
          end
      end
    else (Thrown NoRefreshToken, w).
Proof.
  unfold refreshAccessToken, getRefreshToken. rewrite bind_read.
  destruct (truthy (getItem KEY_REFRESH_TOKEN w)); cbn [negb]; [|reflexivity].
  unfold bind at 1.
  destruct (getDiscovery P config w) as [[d|e] w0]; [|reflexivity].
  apply (token_response_eq P
           (refresh_request config d (of_value (getItem KEY_REFRESH_TOKEN w)))
           TokenRefreshFailed).
Qed.

(** X11: a successful [refreshAccessToken] has sent, as its last request,
    the refresh grant carrying the refresh token that was stored; the
    access token it returns is the stored one afterwards; the stored
    refresh token is the new one when the response has one, and the old
    one otherwise. *)
Theorem refreshAccessToken_success
    (P : Platform) (config : BrowserIamConfig) (w w1 : World) (tokens : TokenResponse) :
  refreshAccessToken P config w = (Returned tokens, w1) ->
  (exists d, List.last (sent w1) (discovery_request config)
             = refresh_request config d (of_value (getRefreshToken w)))
  /\ getAccessToken w1 = Some (access_token tokens)
  /\ getRefreshToken w1
     = (if truthy (refresh_token tokens) then refresh_token tokens
        else getRefreshToken w).
Proof.
  rewrite refreshAccessToken_eq.
  destruct (truthy (getRefreshToken w)); [|discriminate].
  destruct (getDiscovery P config w) as [[d|e] w0] eqn:Hd; [|discriminate].
  destruct (getDiscovery_frame _ _ _ _ _ Hd) as (Hs0 & _).
  cbn zeta. destruct (answer _) as [res|]; [|discriminate].
  destruct (ok res); [|discriminate].
  destruct (body res ≫= json_tokens P) as [t|]; [|discriminate].
  intros [= -> <-].
  split; [|split].
  - exists d. rewrite sent_storeTokens. cbn [sent after_request].
    apply List.last_last.
  - apply getAccessToken_storeTokens.
  - rewrite getRefreshToken_storeTokens.
    destruct (truthy (refresh_token tokens)); [reflexivity|].
    unfold getRefreshToken, getItem. cbn [storage after_request]. now rewrite Hs0.
Qed.

Lemma refreshAccessToken_success_witness :
  getRefreshToken (snd (refreshAccessToken Scenario.thrifty Demo.config Demo.pending))
    = Some "rt-1"
  /\ getAccessToken (snd (refreshAccessToken Scenario.thrifty Demo.config Demo.pending))
    = Some "at-3".
Proof.
  destruct (refreshAccessToken_success Scenario.thrifty Demo.config Demo.pending
              (snd (refreshAccessToken Scenario.thrifty Demo.config Demo.pending))
              Demo.bearer_only eq_refl)
    as (_ & Hat & Hrt).
  split; [exact Hrt | exact Hat].
Defined.

(** *** The callback, once more *)

Lemma session_keys_not_pending (k : string) :
  k ∈ session_keys -> KEY_STATE <> k /\ KEY_CODE_VERIFIER <> k.
Proof.
  unfold session_keys. intros Hin.
  repeat (apply elem_of_cons in Hin as [-> | Hin]); try (split; discriminate).
  now apply elem_of_nil in Hin.
Qed.

(** What [exchangeCode] leaves of the world: the address of the page,
    and on a failure every stored value. *)
Lemma exchangeCode_frame
    (P : Platform) (config : BrowserIamConfig) (code codeVerifier : string)
    (w w1 : World) (o : Outcome TokenResponse) :
  exchangeCode P config code codeVerifier w = (o, w1) ->
  location_href w1 = location_href w
  /\ (forall e, o = Thrown e -> storage w1 = storage w)
  /\ (forall tokens, o = Returned tokens ->
        getAccessToken w1 = Some (access_token tokens)).
Proof.
  rewrite exchangeCode_eq.
  destruct (getDiscovery P config w) as [[d|e0] w0] eqn:Hd.
  2:{ destruct (getDiscovery_frame _ _ _ _ _ Hd) as (Hs0 & _).
      intros [= <- <-]. split; [|split; [now intros|discriminate]].
      revert Hd. destruct (discoveryCache w) as [d0|] eqn:Hc.
      - rewrite (getDiscovery_cached P config w d0 Hc). discriminate.
      - rewrite (getDiscovery_uncached P config w Hc). cbn zeta.
        repeat case_match; intros; simplify_eq; reflexivity. }
  assert (location_href w0 = location_href w /\ storage w0 = storage w) as [Hl0 Hs0].
  { split; [|exact (proj1 (getDiscovery_frame _ _ _ _ _ Hd))].
    revert Hd. destruct (discoveryCache w) as [d0|] eqn:Hc.
    - rewrite (getDiscovery_cached P config w d0 Hc). now intros [= _ <-].
    - rewrite (getDiscovery_uncached P config w Hc). cbn zeta.
      repeat case_match; intros; simplify_eq; reflexivity. }
  cbn zeta. destruct (answer _) as [res|].
  2:{ intros [= <- <-]. split; [exact Hl0|]. split; [now intros|discriminate]. }
  destruct (ok res).
  2:{ intros [= <- <-]. split; [exact Hl0|]. split; [now intros|discriminate]. }
  destruct (body res ≫= json_tokens P) as [t|]; intros [= <- <-].
  - split; [|split; [discriminate|]].
    + unfold storeTokens.
      repeat match goal with
             | |- context [match ?x with _ => _ end] => destruct x
             end; exact Hl0.
    + intros tokens [= <-]. apply getAccessToken_storeTokens.
  - split; [exact Hl0|]. split; [now intros|discriminate].
Qed.

(** X12: a call of [handleCallback] that throws, at a guard or in the
    exchange, leaves access token, refresh token, ID token and expiry as
    they were; a call that returns has stored the access token it
    returns and has removed the pending request. *)
Theorem handleCallback_session
    (P : Platform) (config : BrowserIamConfig) (callbackUrl : option string)
    (w w1 : World) (o : Outcome TokenResponse) :
  handleCallback P config callbackUrl w = (o, w1) ->
  (forall e k, o = Thrown e -> k ∈ session_keys -> getItem k w1 = getItem k w)
  /\ (forall tokens, o = Returned tokens ->
        getAccessToken w1 = Some (access_token tokens)
        /\ getItem KEY_STATE w1 = None
        /\ getItem KEY_CODE_VERIFIER w1 = None).
Proof.
  rewrite handleCallback_eq.
  destruct (parseURL P _) as [url|].
  2:{ intros [= <- <-]. split; [reflexivity | discriminate]. }
  destruct (validation url w) as [e0|].
  { intros [= <- <-]. split; [reflexivity | discriminate]. }
  intros Hx. pose proof Hx as Hx'. apply exchangeCode_frame in Hx as (_ & Hfail & Hok).
  split.
  - intros e k -> Hk. unfold getItem. rewrite (Hfail e eq_refl).
    destruct (session_keys_not_pending k Hk) as [Hs Hv].
    change (getItem k (removeItem KEY_CODE_VERIFIER (removeItem KEY_STATE w))
            = getItem k w).
    rewrite !getItem_removeItem. now repeat case_decide.
  - intros tokens ->. split; [now apply Hok|].
    destruct pending_keys_not_session as [Hs Hv].
    pose proof (exchangeCode_other_keys P config
                  (of_value (searchParams_get "code" (searchParams url)))
                  (of_value (getItem KEY_CODE_VERIFIER w))
                  KEY_STATE (removeItem KEY_CODE_VERIFIER (removeItem KEY_STATE w))
                  Hs) as Hks.
    pose proof (exchangeCode_other_keys P config
                  (of_value (searchParams_get "code" (searchParams url)))
                  (of_value (getItem KEY_CODE_VERIFIER w))
                  KEY_CODE_VERIFIER
                  (removeItem KEY_CODE_VERIFIER (removeItem KEY_STATE w)) Hv) as Hkv.
    rewrite Hx' in Hks, Hkv. cbn [snd] in Hks, Hkv.
    rewrite Hks, Hkv, !getItem_removeItem. split; now repeat case_decide.
Qed.

Lemma handleCallback_session_witness :
  getItem KEY_ACCESS_TOKEN
    (snd (handleCallback (Demo.platform Demo.refusing) Demo.config
            (Some "https://app/cb?code=abc&state=s-1") Demo.pending))
    = Some "at-1"
  /\ getAccessToken
       (snd (handleCallback Demo.browser Demo.config
               (Some "https://app/cb?code=abc&state=s-1") Demo.pending))
     = Some "at-2".
Proof.
  split.
  - refine (proj1 (handleCallback_session (Demo.platform Demo.refusing) Demo.config
                     (Some "https://app/cb?code=abc&state=s-1") Demo.pending
                     _ (Thrown (TokenExchangeFailed 400 "invalid_grant")) _)
              _ KEY_ACCESS_TOKEN eq_refl _).
    + vm_compute. reflexivity.
    + apply (bool_decide_unpack _). reflexivity.
  - refine (proj1 (proj2 (handleCallback_session Demo.browser Demo.config
                            (Some "https://app/cb?code=abc&state=s-1") Demo.pending
                            _ (Returned Demo.tokens) _)
                     Demo.tokens eq_refl)).
    vm_compute. reflexivity.
Defined.

(** X13: a callback cannot be used twice.  After [handleCallback] has
    returned tokens for it, or has failed in the exchange with the token
    endpoint's refusal, the same call again throws the state mismatch
    and changes nothing. *)
Theorem handleCallback_no_replay
    (P : Platform) (config : BrowserIamConfig) (callbackUrl : option string)
    (w w1 : World) (o : Outcome TokenResponse) :
  handleCallback P config callbackUrl w = (o, w1) ->
  (exists tokens, o = Returned tokens)
    \/ (exists st text, o = Thrown (TokenExchangeFailed st text)) ->
  handleCallback P config callbackUrl w1 = (Thrown StateMismatch, w1).
Proof.
  rewrite handleCallback_eq.
  destruct (parseURL P (default (location_href w) callbackUrl)) as [url|] eqn:Hu.
  2:{ intros [= <- <-] [[t Ht] | (st & text & Ht)]; discriminate. }
  destruct (validation url w) as [e0|] eqn:Hv.
  { intros [= <- <-] [[t Ht] | (st & text & Ht)]; [discriminate|].
    injection Ht as ->. revert Hv. unfold validation.
    repeat case_match; discriminate. }
  intros Hx _.
  destruct (exchangeCode_frame _ _ _ _ _ _ _ Hx) as (Hloc & _ & _).
  destruct pending_keys_not_session as [Hs _].
  pose proof (exchangeCode_other_keys P config
                (of_value (searchParams_get "code" (searchParams url)))
                (of_value (getItem KEY_CODE_VERIFIER w))
                KEY_STATE (removeItem KEY_CODE_VERIFIER (removeItem KEY_STATE w))
                Hs) as Hks.
  rewrite Hx in Hks. cbn [snd] in Hks.
  rewrite !getItem_removeItem in Hks.
  assert (getItem KEY_STATE w1 = None) as Hnone by (now repeat case_decide).
  rewrite handleCallback_eq, Hloc.
  change (location_href (removeItem KEY_CODE_VERIFIER (removeItem KEY_STATE w)))
    with (location_href w).
  rewrite Hu.
  revert Hv. unfold validation. rewrite Hnone.
  destruct (truthy (searchParams_get "error" _)); [discriminate|].
  destruct (truthy (searchParams_get "code" _)); [|discriminate].
  reflexivity.
Qed.

Lemma handleCallback_no_replay_witness :
  let w1 := snd (handleCallback Demo.browser Demo.config
                   (Some "https://app/cb?code=abc&state=s-1") Demo.pending) in
  handleCallback Demo.browser Demo.config (Some "https://app/cb?code=abc&state=s-1") w1
  = (Thrown StateMismatch, w1).
Proof.
  cbn zeta.
  refine (handleCallback_no_replay Demo.browser Demo.config
            (Some "https://app/cb?code=abc&state=s-1") Demo.pending
            _ (Returned Demo.tokens) _ (or_introl (ex_intro _ Demo.tokens eq_refl))).
  vm_compute. reflexivity.
Defined.

(** *** The authorization request *)





(** What the signin methods do before they dispatch. *)
Lemma begin_signin_eq
    (P : Platform) (config : BrowserIamConfig) {A : Type}
    (k : OidcDiscovery -> Pkce.PkceChallenge -> string -> M A) (w : World) :
  bind (getDiscovery P config)
    (fun discovery =>
       bind (generatePkceChallenge P)
         (fun pk =>
            bind (generateState P)
              (fun state =>
                 bind (write (setItem KEY_STATE state))
                   (fun _ =>
                      bind (write (setItem KEY_CODE_VERIFIER (Pkce.codeVerifier pk)))
                        (fun _ => k discovery pk state))))) w
  = match getDiscovery P config w with
    | (Thrown e, w0) => (Thrown e, w0)
    | (Returned d, w0) => k d (next_pkce P w0) (next_state P w0) (with_pending P w0)
    end.
Proof.
  unfold bind at 1.
  destruct (getDiscovery P config w) as [[d|e] w0]; reflexivity.
Qed.

Lemma signinRedirect_eq
    (P : Platform) (config : BrowserIamConfig)
    (additionalParams : option (list (string * string))) (w : World) :
  signinRedirect P config additionalParams w
  = match getDiscovery P config w with
    | (Thrown e, w0) => (Thrown e, w0)
    | (Returned d, w0) =>
        match parseURL P (of_value (authorization_endpoint d)) with
        | None => (Thrown InvalidURL, with_pending P w0)
        | Some u =>
            (Returned tt,
             navigate (serializeURL P (dispatch_url P config additionalParams w0 u))
               (with_pending P w0))
        end
    end.
Proof.
  unfold signinRedirect. rewrite begin_signin_eq.
  destruct (getDiscovery P config w) as [[d|e] w0]; [|reflexivity].
  unfold new_URL.
  destruct (parseURL P _) as [u|]; [|reflexivity].
  rewrite bind_ret. unfold write, dispatch_url.
  now destruct additionalParams.
Qed.

Lemma with_pending_storage (P : Platform) (w : World) :
  getItem KEY_STATE (with_pending P w) = Some (next_state P w)
  /\ getItem KEY_CODE_VERIFIER (with_pending P w)
     = Some (Pkce.codeVerifier (next_pkce P w))
  /\ String.length (next_state P w) = 32
  /\ String.length (Pkce.codeVerifier (next_pkce P w)) = 64.
Proof.
  unfold with_pending. rewrite getItem_setItem_eq.
  rewrite getItem_setItem_ne by discriminate. rewrite getItem_setItem_eq.
  repeat split.
  - apply length_randomString_of, length_getRandomValues.
  - apply length_randomString_of, length_getRandomValues.
Qed.



Lemma truthy_of_length (s : string) :
  String.length s <> 0 -> truthy (Some s) = true.
Proof. destruct s; [contradiction | reflexivity]. Qed.

Lemma exchangeCode_request
    (P : Platform) (config : BrowserIamConfig) (code codeVerifier : string)
    (w w0 : World) (d : OidcDiscovery) :
  getDiscovery P config w = (Returned d, w0) ->
  sent (snd (exchangeCode P config code codeVerifier w))
  = sent w0 ++ [code_request config d code codeVerifier].
Proof.
  intros Hd. rewrite exchangeCode_eq, Hd. cbn zeta.
  repeat case_match; cbn [snd]; rewrite ?sent_storeTokens; reflexivity.
Qed.

(** X15: the redirect flow end to end.  After [signinRedirect] has
    returned, on any page with the same storage, a callback without
    [error], with a code and with the state that was stored passes every
    guard; the exchange that follows runs with the stored verifier, and
    once the metadata is there the one request it sends is the
    authorization-code grant carrying that code and that verifier. *)
Theorem redirect_round_trip
    (P : Platform) (config : BrowserIamConfig)
    (additionalParams : option (list (string * string))) (w w1 w2 : World)
    (callbackUrl : option string) (url : URL) (code : string) :
  signinRedirect P config additionalParams w = (Returned tt, w1) ->
  storage w2 = storage w1 ->
  parseURL P (default (location_href w2) callbackUrl) = Some url ->
  truthy (searchParams_get "error" (searchParams url)) = false ->
  searchParams_get "code" (searchParams url) = Some code ->
  code <> "" ->
  searchParams_get "state" (searchParams url) = getItem KEY_STATE w1 ->
  let verifier := of_value (getItem KEY_CODE_VERIFIER w1) in
  let w3 := removeItem KEY_CODE_VERIFIER (removeItem KEY_STATE w2) in
  handleCallback P config callbackUrl w2 = exchangeCode P config code verifier w3
  /\ forall d w4,
       getDiscovery P config w3 = (Returned d, w4) ->
       sent (snd (handleCallback P config callbackUrl w2))
       = sent w4 ++ [code_request config d code verifier].
Proof.
  intros Hredirect Hstorage Hu Herr Hcode Hne Hstate. cbn zeta.
  assert (exists state verifier,
             getItem KEY_STATE w1 = Some state
             /\ getItem KEY_CODE_VERIFIER w1 = Some verifier
             /\ String.length state = 32 /\ String.length verifier = 64)
    as (state & verifier & Hs & Hv & Hls & Hlv).
  { revert Hredirect. rewrite signinRedirect_eq.
    destruct (getDiscovery P config w) as [[d|e] w0]; [|discriminate].
    destruct (parseURL P (of_value _)) as [endpoint|]; [|discriminate].
    intros [= <-]. destruct (with_pending_storage P w0) as (? & ? & ? & ?).
    eauto 10. }
  assert (getItem KEY_STATE w2 = Some state
          /\ getItem KEY_CODE_VERIFIER w2 = Some verifier) as [Hs2 Hv2]
    by (unfold getItem in *; rewrite Hstorage; auto).
  assert (handleCallback P config callbackUrl w2
          = exchangeCode P config code (of_value (getItem KEY_CODE_VERIFIER w1))
              (removeItem KEY_CODE_VERIFIER (removeItem KEY_STATE w2))) as Hrun.
  { rewrite handleCallback_eq, Hu. unfold validation.
    rewrite Herr, Hcode, Hs2, Hv2, Hstate, Hs, Hv.
    rewrite (truthy_of_length state) by (rewrite Hls; lia).
    rewrite (truthy_of_length verifier) by (rewrite Hlv; lia).
    rewrite (truthy_of_length code) by (now destruct code).
    rewrite bool_decide_eq_true_2 by reflexivity.
    reflexivity. }
  split; [exact Hrun|].
  intros d w4 Hd. rewrite Hrun. now apply exchangeCode_request.
Qed.

Lemma redirect_round_trip_witness :
  searchParams_get "code_verifier"
    (req_body
       (List.last
          (sent (snd (handleCallback Demo.browser Demo.config
                        (Some Scenario.redirect_callback) Scenario.redirected)))
          (discovery_request Demo.config)))
  = getItem KEY_CODE_VERIFIER Scenario.redirected.
Proof.
  assert (Scenario.redirect_callback <> "" /\ "abc" <> "") as [_ Hne]
    by (split; discriminate).
  destruct (redirect_round_trip Demo.browser Demo.config None Demo.fresh
              (snd (signinRedirect Demo.browser Demo.config None Demo.fresh))
              Scenario.redirected (Some Scenario.redirect_callback)
              Scenario.redirect_callback_url "abc"
              eq_refl eq_refl eq_refl eq_refl eq_refl Hne eq_refl)
    as [_ Hsent].
  rewrite (Hsent Demo.discovery
             (snd (getDiscovery Demo.browser Demo.config
                     (removeItem KEY_CODE_VERIFIER
                        (removeItem KEY_STATE Scenario.redirected))))
             eq_refl).
  rewrite List.last_last. reflexivity.
Defined.

(** *** The silent flow *)

Lemma cleanup_keys (a a1 : SilentAttempt) (w w1 : World) :
  cleanup a w = (a1, w1) ->
  getItem KEY_STATE w1 = None
  /\ getItem KEY_CODE_VERIFIER w1 = None
  /\ settled a1 = settled a
  /\ released a1.
Proof.
  unfold cleanup. intros [= <- <-].
  rewrite !getItem_removeItem. repeat split; now repeat case_decide.
Qed.

Lemma resolve_settles (v : option TokenResponse) (a : SilentAttempt) :
  is_Some (settled (resolve v a))
  /\ timer_armed (resolve v a) = timer_armed a
  /\ iframe_attached (resolve v a) = iframe_attached a.
Proof.
  unfold resolve. destruct (settled a) as [s|] eqn:E; cbn; rewrite ?E; eauto.
Qed.

Lemma deliver_resolved
    (P : Platform) (config : BrowserIamConfig) (ev : SilentEvent)
    (a : SilentAttempt) (w : World) :
  released a -> deliver P config ev (a, w) = (a, w).
Proof. intros [Ht Hi]. unfold deliver. destruct ev; now rewrite ?Ht, ?Hi. Qed.

Lemma cleanup_resolve_ok (a a1 : SilentAttempt) (w w1 : World) :
  cleanup a w = (a1, w1) -> attempt_ok (resolve None a1) w1.
Proof.
  intros E. destruct (cleanup_keys _ _ _ _ E) as (Hks & Hkv & _ & Ht & Hi).
  destruct (resolve_settles None a1) as (Hsome & Ht' & Hi').
  right. repeat split; try assumption; congruence.
Qed.

Lemma deliver_attempt_ok
    (P : Platform) (config : BrowserIamConfig) (ev : SilentEvent)
    (a : SilentAttempt) (w : World) :
  attempt_ok a w ->
  attempt_ok (fst (deliver P config ev (a, w))) (snd (deliver P config ev (a, w))).
Proof.
  intros [(Hs & Ht & Hi) | (Hs & Hr & Hk)].
  2:{ rewrite deliver_resolved by assumption. right. auto. }
  unfold deliver. destruct ev as [|loc].
  - rewrite Ht. unfold on_timeout.
    destruct (cleanup a w) as [a1 w1] eqn:E. cbn [fst snd].
    now apply (cleanup_resolve_ok a a1 w w1).
  - rewrite Hi. unfold on_load. destruct loc as [|[iframeUrl|]].
    + destruct (cleanup a w) as [a1 w1] eqn:E. cbn [fst snd].
      now apply (cleanup_resolve_ok a a1 w w1).
    + destruct (truthy (Some iframeUrl) && _); [|left; auto].
      destruct (cleanup a w) as [a1 w1] eqn:E.
      destruct (cleanup_keys _ _ _ _ E) as (Hks & _).
      assert (truthy (getItem KEY_STATE w1) = false) as Hk by now rewrite Hks.
      destruct (handleCallback_without_state P config (Some iframeUrl) w1 Hk)
        as [e ->].
      cbn [fst snd]. now apply (cleanup_resolve_ok a a1 w w1).
    + left. auto.
Qed.

Lemma deliver_all_attempt_ok
    (P : Platform) (config : BrowserIamConfig) (events : list SilentEvent)
    (aw : SilentAttempt * World) :
  attempt_ok (fst aw) (snd aw) ->
  let aw' := List.fold_left (fun aw ev => deliver P config ev aw) events aw in
  attempt_ok (fst aw') (snd aw').
Proof.
  cbn zeta. revert aw. induction events as [|ev events IH]; intros [a w] Hok;
    [exact Hok|].
  cbn [List.fold_left]. apply IH.
  apply (deliver_attempt_ok P config ev a w Hok).
Qed.

Lemma deliver_all_resolved
    (P : Platform) (config : BrowserIamConfig) (events : list SilentEvent)
    (a : SilentAttempt) (w : World) :
  released a ->
  List.fold_left (fun aw ev => deliver P config ev aw) events (a, w) = (a, w).
Proof.
  intros Hr. induction events as [|ev events IH]; [reflexivity|].
  cbn [List.fold_left]. now rewrite deliver_resolved.
Qed.

Lemma signinSilent_start_ok
    (P : Platform) (config : BrowserIamConfig) (w w0 : World) (a : SilentAttempt) :
  signinSilent_start P config w = (Returned a, w0) ->
  settled a = None /\ timer_armed a = true /\ iframe_attached a = true.
Proof.
  unfold signinSilent_start. rewrite begin_signin_eq.
  destruct (getDiscovery P config w) as [[d|e] wd]; [|discriminate].
  unfold new_URL. destruct (parseURL P _) as [u|]; [|discriminate].
  rewrite bind_ret. now intros [= <- <-].
Qed.

(** X16: [signinSilent] resolves once and cleans up.  When the promise
    has been resolved after some events, the state and the verifier are
    gone from storage, and no event that follows changes the result or
    the world. *)
Theorem signinSilent_resolves_once
    (P : Platform) (config : BrowserIamConfig) (events later : list SilentEvent)
    (w w' : World) (v : option TokenResponse) :
  signinSilent P config events w = (Returned (Some v), w') ->
  getItem KEY_STATE w' = None
  /\ getItem KEY_CODE_VERIFIER w' = None
  /\ signinSilent P config (events ++ later) w = (Returned (Some v), w').
Proof.
  unfold signinSilent, bind.
  destruct (signinSilent_start P config w) as [[a0|e] w0] eqn:Hstart; [|discriminate].
  rewrite List.fold_left_app.
  pose proof (deliver_all_attempt_ok P config events (a0, w0)
                (or_introl (signinSilent_start_ok P config w w0 a0 Hstart))) as Hok.
  cbn zeta in Hok.
  destruct (List.fold_left _ events (a0, w0)) as [a1 w1]. cbn [fst snd] in Hok.
  intros [= Hv <-].
  destruct Hok as [(Hnone & _) | (_ & Hr & Hks & Hkv)]; [congruence|].
  split; [exact Hks|]. split; [exact Hkv|].
  rewrite deliver_all_resolved by assumption. now rewrite Hv.
Qed.

Lemma signinSilent_resolves_once_witness :
  fst (signinSilent Demo.browser Demo.config
         ([TimerFired] ++ [IframeLoaded (Readable (Some Demo.silent_callback))])
         Demo.fresh)
  = Returned (Some None).
Proof.
  rewrite (proj2 (proj2 (signinSilent_resolves_once Demo.browser Demo.config
                           [TimerFired]
                           [IframeLoaded (Readable (Some Demo.silent_callback))]
                           Demo.fresh
                           (snd (signinSilent Demo.browser Demo.config [TimerFired]
                                   Demo.fresh))
                           None eq_refl))).
  reflexivity.
Defined.

(** X17: the failure paths of the silent flow.  Once the attempt has
    started, a time-out or a load of a page on another origin as the
    next event resolves the promise with [null], whatever follows; a
    load of a readable page that is not on the redirect URI is passed
    over. *)
Theorem signinSilent_failure_paths
    (P : Platform) (config : BrowserIamConfig) (rest : list SilentEvent)
    (w w0 : World) (href : option string) :
  signinSilent P config [] w = (Returned None, w0) ->
  fst (signinSilent P config (TimerFired :: rest) w) = Returned (Some None)
  /\ fst (signinSilent P config (IframeLoaded CrossOrigin :: rest) w)
     = Returned (Some None)
  /\ (ignored_load config href = true ->
      signinSilent P config (IframeLoaded (Readable href) :: rest) w
      = signinSilent P config rest w).
Proof.
  unfold signinSilent, bind.
  destruct (signinSilent_start P config w) as [[a0|e] wa] eqn:Hstart; [|discriminate].
  destruct (signinSilent_start_ok P config w wa a0 Hstart) as (Hs & Ht & Hi).
  intros _.
  assert (forall a1 w1, cleanup a0 wa = (a1, w1) ->
            fst (let '(a', w') :=
                   List.fold_left (fun aw ev => deliver P config ev aw) rest
                     (resolve None a1, w1) in
                 (Returned (settled a'), w'))
            = Returned (Some None)) as Hnull.
  { intros a1 w1 E. destruct (cleanup_keys _ _ _ _ E) as (_ & _ & Hs1 & Ht1 & Hi1).
    destruct (resolve_settles None a1) as (_ & Ht' & Hi').
    rewrite deliver_all_resolved by (split; congruence).
    cbn [fst]. unfold resolve. rewrite Hs1, Hs. reflexivity. }
  split; [|split].
  - cbn [List.fold_left deliver]. rewrite Ht. unfold on_timeout.
    destruct (cleanup a0 wa) as [a1 w1] eqn:E. now apply Hnull.
  - cbn [List.fold_left deliver]. rewrite Hi. unfold on_load.
    destruct (cleanup a0 wa) as [a1 w1] eqn:E. now apply Hnull.
  - intros Hign. cbn [List.fold_left deliver]. rewrite Hi. unfold on_load.
    destruct href as [iframeUrl|]; [|reflexivity].
    unfold ignored_load in Hign. apply negb_true_iff in Hign. now rewrite Hign.
Qed.

Lemma signinSilent_failure_paths_witness :
  fst (signinSilent Demo.browser Demo.config
         [IframeLoaded CrossOrigin; TimerFired] Demo.fresh)
  = Returned (Some None)
  /\ signinSilent Demo.browser Demo.config
       [IframeLoaded (Readable (Some "https://app/other")); TimerFired] Demo.fresh
     = signinSilent Demo.browser Demo.config [TimerFired] Demo.fresh.
Proof.
  pose proof (signinSilent_failure_paths Demo.browser Demo.config [TimerFired]
                Demo.fresh
                (snd (signinSilent Demo.browser Demo.config [] Demo.fresh))
                (Some "https://app/other") eq_refl) as (_ & Hcross & Hign).
  split; [exact Hcross | exact (Hign eq_refl)].
Defined.

(** *** The popup flow *)

Lemma signinPopup_start_eq
    (P : Platform) (config : BrowserIamConfig)
    (additionalParams : option (list (string * string))) (opened : bool) (w : World) :
  signinPopup_start P config additionalParams opened w
  = match getDiscovery P config w with
    | (Thrown e, w0) => (Thrown e, w0)
    | (Returned d, w0) =>
        match parseURL P (of_value (authorization_endpoint d)) with
        | None => (Thrown InvalidURL, with_pending P w0)
        | Some u =>
            (Returned
               {| popup_url :=
                    serializeURL P (dispatch_url P config additionalParams w0 u);
                  popup_settled := if opened then None else Some (inl PopupBlocked);
                  interval_live := opened;
                  popup_open := opened |},
             with_pending P w0)
        end
    end.
Proof.
  unfold signinPopup_start. rewrite begin_signin_eq.
  destruct (getDiscovery P config w) as [[d|e] w0]; [|reflexivity].
  unfold new_URL.
  destruct (parseURL P _) as [u|]; [|reflexivity].
  rewrite bind_ret. unfold dispatch_url.
  now destruct additionalParams, opened.
Qed.

Lemma tick_waiting
    (P : Platform) (config : BrowserIamConfig) (views : list PopupView)
    (a : PopupAttempt) (w : World) :
  List.forallb (waiting config) views = true ->
  List.fold_left (fun aw view => tick P config view aw) views (a, w) = (a, w).
Proof.
  induction views as [|view views IH]; [reflexivity|].
  cbn [List.forallb List.fold_left]. intros [Hv Hall]%andb_prop.
  assert (tick P config view (a, w) = (a, w)) as ->; [|now apply IH].
  unfold tick, on_tick. destruct (interval_live a); [|reflexivity].
  destruct view as [| |href]; cbn in Hv; try discriminate; [reflexivity|].
  apply negb_true_iff in Hv. now rewrite Hv.
Qed.

Lemma tick_cleared
    (P : Platform) (config : BrowserIamConfig) (views : list PopupView)
    (a : PopupAttempt) (w : World) :
  interval_live a = false ->
  List.fold_left (fun aw view => tick P config view aw) views (a, w) = (a, w).
Proof.
  intros Hl. induction views as [|view views IH]; [reflexivity|].
  cbn [List.fold_left tick]. now rewrite Hl.
Qed.

(** X18: what decides the popup flow.  With the popup open, views of a
    popup on another origin, or on a page that is not on the redirect
    URI, change nothing, and the promise stays pending as long as only
    those are seen: there is no time-out.  The first other view decides:
    a closed popup rejects with the closed-popup error; a popup on the
    redirect URI hands its address to [handleCallback], whose result or
    exception settles the promise.  Views after that are not looked at. *)
Theorem signinPopup_first_decisive_view
    (P : Platform) (config : BrowserIamConfig)
    (additionalParams : option (list (string * string)))
    (quiet rest : list PopupView) (href : string)
    (w w0 : World) (a0 : PopupAttempt) :
  signinPopup_start P config additionalParams true w = (Returned a0, w0) ->
  List.forallb (waiting config) quiet = true ->
  signinPopup P config additionalParams true quiet w = (Returned None, w0)
  /\ signinPopup P config additionalParams true (quiet ++ ViewClosed :: rest) w
     = (Returned (Some (inl PopupClosed)), w0)
  /\ (String.prefix (redirectUri config) href = true ->
      signinPopup P config additionalParams true (quiet ++ ViewAt href :: rest) w
      = match handleCallback P config (Some href) w0 with
        | (Returned tokens, w') => (Returned (Some (inr tokens)), w')
        | (Thrown e, w') => (Returned (Some (inl (CallbackRejected e))), w')
        end).
Proof.
  intros Hstart Hquiet. unfold signinPopup, bind. rewrite Hstart.
  assert (popup_settled a0 = None /\ interval_live a0 = true) as [Hs Hl].
  { revert Hstart. rewrite signinPopup_start_eq.
    repeat case_match; intros; simplify_eq; auto. }
  rewrite !List.fold_left_app, !tick_waiting by assumption.
  split; [now rewrite Hs|]. split.
  - cbn [List.fold_left tick]. rewrite Hl. unfold on_tick.
    rewrite tick_cleared by (unfold settle; now destruct (popup_settled _)).
    unfold settle. cbn [clearInterval popup_settled]. now rewrite Hs.
  - intros Hpre. cbn [List.fold_left tick]. rewrite Hl. unfold on_tick. rewrite Hpre.
    destruct (handleCallback P config (Some href) w0) as [[tokens|e] w'];
      rewrite tick_cleared by (unfold settle; now destruct (popup_settled _));
      unfold settle; cbn [clearInterval popup_close popup_settled]; now rewrite Hs.
Qed.

Lemma signinPopup_first_decisive_view_witness :
  fst (signinPopup Demo.browser Demo.config None true
         ([ViewCrossOrigin; ViewAt "https://app/other"]
            ++ ViewAt Scenario.redirect_callback :: [ViewClosed]) Demo.fresh)
  = Returned (Some (inr Demo.tokens))
  /\ fst (signinPopup Demo.browser Demo.config None true
            ([ViewCrossOrigin] ++ ViewClosed :: [ViewAt Scenario.redirect_callback])
            Demo.fresh)
     = Returned (Some (inl PopupClosed)).
Proof.
  split.
  - rewrite (proj2 (proj2
               (signinPopup_first_decisive_view Demo.browser Demo.config None
                  [ViewCrossOrigin; ViewAt "https://app/other"] [ViewClosed]
                  Scenario.redirect_callback Demo.fresh
                  (snd (signinPopup_start Demo.browser Demo.config None true Demo.fresh))
                  _ eq_refl eq_refl)) eq_refl).
    vm_compute. reflexivity.
  - rewrite (proj1 (proj2
               (signinPopup_first_decisive_view Demo.browser Demo.config None
                  [ViewCrossOrigin] [ViewAt Scenario.redirect_callback]
                  Scenario.redirect_callback Demo.fresh
                  (snd (signinPopup_start Demo.browser Demo.config None true Demo.fresh))
                  _ eq_refl eq_refl))).
    reflexivity.
Defined.

(** X19: an abandoned popup leaves its pending request behind.  When
    the popup is blocked, or closed before it reaches the redirect URI,
    the promise is rejected and the state and the verifier generated for
    the attempt are still in storage. *)
Theorem signinPopup_abandoned
    (P : Platform) (config : BrowserIamConfig)
    (additionalParams : option (list (string * string))) (opened : bool)
    (quiet rest : list PopupView) (w w0 : World) (a0 : PopupAttempt) :
  signinPopup_start P config additionalParams opened w = (Returned a0, w0) ->
  List.forallb (waiting config) quiet = true ->
  (exists state verifier,
      getItem KEY_STATE w0 = Some state /\ state <> ""
      /\ getItem KEY_CODE_VERIFIER w0 = Some verifier /\ verifier <> "")
  /\ (opened = false ->
      signinPopup P config additionalParams opened rest w
      = (Returned (Some (inl PopupBlocked)), w0))
  /\ (opened = true ->
      signinPopup P config additionalParams opened (quiet ++ ViewClosed :: rest) w
      = (Returned (Some (inl PopupClosed)), w0)).
Proof.
  intros Hstart Hquiet.
  assert (exists wd, w0 = with_pending P wd
                     /\ popup_settled a0 = (if opened then None else Some (inl PopupBlocked))
                     /\ interval_live a0 = opened) as (wd & -> & Hs & Hl).
  { revert Hstart. rewrite signinPopup_start_eq.
    repeat case_match; intros; simplify_eq; eauto. }
  split; [|split].
  - destruct (with_pending_storage P wd) as (Hks & Hkv & Hls & Hlv).
    exists (next_state P wd), (Pkce.codeVerifier (next_pkce P wd)).
    repeat split; try assumption; intros E; rewrite E in *; discriminate.
  - intros ->. unfold signinPopup, bind. rewrite Hstart.
    rewrite tick_cleared by assumption. now rewrite Hs.
  - intros ->. unfold signinPopup, bind. rewrite Hstart.
    rewrite List.fold_left_app, tick_waiting by assumption.
    cbn [List.fold_left tick]. rewrite Hl. unfold on_tick.
    rewrite tick_cleared by (unfold settle; now destruct (popup_settled _)).
    unfold settle. cbn [clearInterval popup_settled]. now rewrite Hs.
Qed.

Lemma signinPopup_abandoned_witness :
  fst (signinPopup Demo.browser Demo.config None false [ViewClosed] Demo.fresh)
  = Returned (Some (inl PopupBlocked))
  /\ is_Some (getItem KEY_STATE
                (snd (signinPopup Demo.browser Demo.config None false [ViewClosed]
                        Demo.fresh))).
Proof.
  destruct (signinPopup_abandoned Demo.browser Demo.config None false [] [ViewClosed]
              Demo.fresh
              (snd (signinPopup_start Demo.browser Demo.config None false Demo.fresh))
              _ eq_refl eq_refl)
    as ((state & verifier & Hks & _) & Hblocked & _).
  rewrite (Hblocked eq_refl). cbn [fst snd]. split; [reflexivity|].
  rewrite Hks. eauto.
Defined.

(** *** User info *)

Section UserInfo.
Variable P : Platform.
Variable config : BrowserIamConfig.
Variable Json : Type.
Variable json_record : string -> option Json.

(** X20: [getUserInfo] asks for nothing without a token and sends the
    token it was given.  When [getValidAccessToken] comes back with no
    token, it throws the no-token error and sends no request of its own;
    when it comes back with a token and the metadata is there, the one
    request that follows is the GET of the userinfo endpoint with that
    token as bearer. *)
Theorem getUserInfo_bearer (w w1 : World) (token : option string) :
  getValidAccessToken P config w = (Returned token, w1) ->
  (truthy token = false ->
     getUserInfo P config Json json_record w = (inl NoValidAccessToken, w1))
  /\ (truthy token = true ->
      forall d w2,
        getDiscovery P config w1 = (Returned d, w2) ->
        sent (snd (getUserInfo P config Json json_record w))
        = sent w2 ++ [userinfo_request d token]
        /\ searchParams_get "Authorization" (req_headers (userinfo_request d token))
           = Some ("Bearer " ++ of_value token)%string).
Proof.
  intros Hv. unfold getUserInfo. rewrite Hv. split.
  - now intros ->.
  - intros -> d w2 Hd. cbn [negb]. rewrite Hd, fetch_eq.
    split; [|reflexivity].
    repeat case_match; reflexivity.
Qed.

(** X21: an expired token is never sent.  With an expired access token
    and a refresh that succeeds, the bearer of the userinfo request is
    the access token the refresh returned. *)
Theorem getUserInfo_refreshes_first
    (w w1 : World) (tokens : TokenResponse) :
  isTokenExpired w = true ->
  truthy (getRefreshToken w) = true ->
  refreshAccessToken P config w = (Returned tokens, w1) ->
  access_token tokens <> "" ->
  exists d,
    discoveryCache w1 = Some d
    /\ sent (snd (getUserInfo P config Json json_record w))
       = sent w1 ++ [userinfo_request d (Some (access_token tokens))].
Proof.
  intros Hexp Hrt Hrefresh Hne.
  assert (getValidAccessToken P config w
          = (Returned (Some (access_token tokens)), w1)) as Hv.
  { rewrite getValidAccessToken_eq, Hexp, Hrt, Hrefresh.
    now rewrite andb_false_r. }
  assert (exists d, discoveryCache w1 = Some d) as [d Hd].
  { revert Hrefresh. rewrite refreshAccessToken_eq, Hrt.
    destruct (getDiscovery P config w) as [[d|e] w0] eqn:Hd; [|discriminate].
    pose proof (getDiscovery_caches P config w w0 d Hd) as Hcache.
    cbn zeta. repeat case_match; intros; simplify_eq.
    exists d. unfold storeTokens.
    repeat match goal with
           | |- context [match ?x with _ => _ end] => destruct x
           end; exact Hcache. }
  exists d. split; [exact Hd|].
  unfold getUserInfo. rewrite Hv.
  rewrite truthy_of_length by (now destruct (access_token tokens)).
  cbn [negb]. rewrite (getDiscovery_cached P config w1 d Hd), fetch_eq.
  repeat case_match; reflexivity.
Qed.

End UserInfo.

Lemma getUserInfo_bearer_witness :
  getUserInfo Demo.browser Demo.config string (fun text => Some text)
    (clearTokens Scenario.signed_in)
  = (inl NoValidAccessToken, clearTokens Scenario.signed_in)
  /\ searchParams_get "Authorization"
       (req_headers
          (List.last
             (sent (snd (getUserInfo Demo.browser Demo.config string
                           (fun text => Some text) Scenario.signed_in)))
             (discovery_request Demo.config)))
     = Some "Bearer at-1".
Proof.
  assert (getValidAccessToken Demo.browser Demo.config (clearTokens Scenario.signed_in)
          = (Returned None, clearTokens Scenario.signed_in)) as Hout
    by (vm_compute; reflexivity).
  assert (getValidAccessToken Demo.browser Demo.config Scenario.signed_in
          = (Returned (Some "at-1"), Scenario.signed_in)) as Hin
    by (vm_compute; reflexivity).
  split.
  - exact (proj1 (getUserInfo_bearer Demo.browser Demo.config string
                    (fun text => Some text) _ _ None Hout)
             eq_refl).
  - destruct (proj2 (getUserInfo_bearer Demo.browser Demo.config string
                       (fun text => Some text) _ _ (Some "at-1") Hin)
                eq_refl Demo.discovery
                (snd (getDiscovery Demo.browser Demo.config Scenario.signed_in))
                eq_refl)
      as [Hsent Hheader].
    rewrite Hsent, List.last_last. exact Hheader.
Defined.

Lemma getUserInfo_refreshes_first_witness :
  exists d,
    sent (snd (getUserInfo Demo.browser Demo.config string (fun text => Some text)
                 Demo.pending))
    = sent (snd (refreshAccessToken Demo.browser Demo.config Demo.pending))
        ++ [userinfo_request d (Some "at-2")].
Proof.
  assert (access_token Demo.tokens <> "") as Hne by discriminate.
  destruct (getUserInfo_refreshes_first Demo.browser Demo.config string
              (fun text => Some text) Demo.pending
              (snd (refreshAccessToken Demo.browser Demo.config Demo.pending))
              Demo.tokens eq_refl eq_refl eq_refl Hne)
    as (d & _ & Hsent).
  exists d. exact Hsent.
Defined.

End BrowserFurther.

(* ===================================================================== *)
(** ** Properties of nextauth.ts and of the refresh scheduler *)
(* ===================================================================== *)

Section CallersFurther.
Import JsString Browser.

(** *** One trailing slash, or all of them *)

Lemma strip_one_snoc (c x : ascii) (l : list ascii) :
  NextAuth.strip_one_trailing c (l ++ [x])
  = if Ascii.eqb x c then l else l ++ [x].
Proof.
  induction l as [|y l IH]; [cbn; now destruct (Ascii.eqb x c)|].
  cbn [app]. change (NextAuth.strip_one_trailing c (y :: l ++ [x]))
    with (match l ++ [x] with
          | [] => if Ascii.eqb y c then [] else [y]
          | _ => y :: NextAuth.strip_one_trailing c (l ++ [x])
          end).
  destruct (l ++ [x]) eqn:E; [now destruct l|].
  rewrite IH. now destruct (Ascii.eqb x c).
Qed.

Lemma strip_trailing_snoc (c x : ascii) (l : list ascii) :
  strip_trailing c (l ++ [x])
  = if Ascii.eqb x c then strip_trailing c l else l ++ [x].
Proof.
  induction l as [|y l IH]; [cbn; now destruct (Ascii.eqb x c)|].
  cbn [app strip_trailing]. rewrite IH.
  destruct (Ascii.eqb x c); [reflexivity|]. now destruct l.
Qed.

Lemma length_strip_trailing (c : ascii) (l : list ascii) :
  List.length (strip_trailing c l) <= List.length l.
Proof.
  induction l as [|y l IH]; [reflexivity|].
  cbn [strip_trailing]. destruct (strip_trailing c l);
    [destruct (Ascii.eqb y c)|]; cbn in *; lia.
Qed.

(** Removing every trailing [c] changes nothing exactly when there is
    none. *)
Lemma strip_trailing_id (c : ascii) (l : list ascii) :
  strip_trailing c l = l <-> ~ (exists t, l = t ++ [c]).
Proof.
  destruct l as [|y l0] using List.rev_ind.
  - split; [|reflexivity]. intros _ [t Ht]. now destruct t.
  - clear IHl0. rewrite strip_trailing_snoc.
    destruct (Ascii.eqb_spec y c) as [->|Hne]; split.
    + intros E. pose proof (length_strip_trailing c l0) as Hlen.
      rewrite E, List.length_app in Hlen. cbn in Hlen. lia.
    + intros Hno. destruct Hno. eauto.
    + intros _ [t Ht]. apply List.app_inj_tail in Ht as [_ ->]. contradiction.
    + reflexivity.
Qed.

Lemma strip_one_all (c : ascii) (l : list ascii) :
  NextAuth.strip_one_trailing c l = strip_trailing c l
  <-> ~ (exists t, l = t ++ [c; c]).
Proof.
  destruct l as [|y l0] using List.rev_ind.
  - split; [|reflexivity]. intros _ [t Ht]. now destruct t.
  - clear IHl0. rewrite strip_one_snoc, strip_trailing_snoc.
    destruct (Ascii.eqb_spec y c) as [->|Hne].
    + split.
      * intros E [t Ht]. symmetry in E. apply strip_trailing_id in E. apply E.
        exists t. change (t ++ [c; c]) with (t ++ [c] ++ [c]) in Ht.
        rewrite List.app_assoc in Ht. now apply List.app_inj_tail in Ht as [-> _].
      * intros Hno. symmetry. apply strip_trailing_id. intros [t ->].
        apply Hno. exists t. now rewrite <- List.app_assoc.
    + split; [|reflexivity]. intros _ [t Ht].
      change (t ++ [c; c]) with (t ++ [c] ++ [c]) in Ht.
      rewrite List.app_assoc in Ht. apply List.app_inj_tail in Ht as [_ ->].
      contradiction.
Qed.

Lemma string_append_inv_tail (s t u : string) :
  String.append s u = String.append t u -> s = t.
Proof.
  intros E. apply (f_equal list_ascii_of_string) in E.
  rewrite !list_ascii_of_string_app in E. apply List.app_inv_tail in E.
  rewrite <- (string_of_list_ascii_of_string s), <- (string_of_list_ascii_of_string t).
  now rewrite E.
Qed.

(** X22: the NextAuth provider and the browser SDK ask for the metadata
    at the same address exactly when the server URL does not end in two
    slashes: the provider removes one trailing slash, the SDK all of
    them. *)
Theorem wellKnown_agrees (options : NextAuth.Options) (config : BrowserIamConfig) :
  NextAuth.serverUrl options = serverUrl config ->
  (NextAuth.wellKnown (NextAuth.HanzoIamProvider options)
   = req_url (discovery_request config)
   <-> ~ (exists t, list_ascii_of_string (serverUrl config) = t ++ ["/"; "/"]%char)).
Proof.
  intros Hurl. rewrite <- strip_one_all.
  cbn [NextAuth.wellKnown NextAuth.HanzoIamProvider req_url discovery_request].
  unfold NextAuth.issuer, baseUrl. rewrite Hurl. split.
  - intros E. apply string_append_inv_tail in E.
    apply (f_equal list_ascii_of_string) in E.
    now rewrite !list_ascii_of_string_of_list_ascii in E.
  - now intros ->.
Qed.

Lemma wellKnown_agrees_witness :
  NextAuth.wellKnown
    (NextAuth.HanzoIamProvider
       {| NextAuth.serverUrl := "https://iam.example/";
          NextAuth.clientId := "my-app"; NextAuth.clientSecret := None;
          NextAuth.orgName := None; NextAuth.appName := None;
          NextAuth.checks := None |})
  = Demo.well_known.
Proof.
  refine (proj2 (wellKnown_agrees
                   {| NextAuth.serverUrl := "https://iam.example/";
                      NextAuth.clientId := "my-app"; NextAuth.clientSecret := None;
                      NextAuth.orgName := None; NextAuth.appName := None;
                      NextAuth.checks := None |}
                   Demo.config eq_refl) _).
  intros [t Ht]. apply (f_equal (@List.rev ascii)) in Ht.
  rewrite List.rev_app_distr in Ht. cbn in Ht. discriminate Ht.
Defined.

(** *** The profile *)



(** *** The refresh scheduler *)

(** X24: when [scheduleRefresh] arms a timer with a delay that is a
    number, the delay is positive, the timer is due exactly 60 seconds
    before the stored expiry, and the token is still unexpired when it
    fires; with an expired token it arms nothing and starts nothing. *)
Theorem scheduleRefresh_timer (w : World) (delay : Z) :
  (React.scheduleRefresh w = React.RefreshIn (Some delay) ->
     (0 < delay)%Z
     /\ (to_number <$> getItem KEY_EXPIRES_AT w) = Some (Some (now w + delay + 60000)%Z)
     /\ isTokenExpired (at_time (now w + delay) w) = false)
  /\ (isTokenExpired w = true -> React.scheduleRefresh w = React.NoRefresh).
Proof.
  split.
  - unfold React.scheduleRefresh.
    destruct (isTokenExpired w) eqn:Hexp; [discriminate|].
    change React.STORAGE_EXPIRES_KEY with KEY_EXPIRES_AT.
    unfold isTokenExpired.
    change (getItem KEY_EXPIRES_AT (at_time (now w + delay) w))
      with (getItem KEY_EXPIRES_AT w).
    destruct (getItem KEY_EXPIRES_AT w) as [s|]; [|discriminate].
    destruct (truthy (Some s)); cbn [negb of_value]; [|discriminate].
    destruct (to_number s) as [n|] eqn:Hn; [|discriminate].
    destruct (Z.leb_spec (n - now w - 60000) 0); [discriminate|].
    intros [= <-]. cbn [fmap option_fmap option_map now at_time].
    rewrite Hn. split; [lia|]. split; [do 2 f_equal; lia | lia].
  - intros Hexp. unfold React.scheduleRefresh. now rewrite Hexp.
Qed.

Lemma scheduleRefresh_timer_witness :
  React.scheduleRefresh Scenario.signed_in = React.RefreshIn (Some 840000%Z)
  /\ isTokenExpired (at_time (now Scenario.signed_in + 840000) Scenario.signed_in)
     = false.
Proof.
  split; [reflexivity|].
  exact (proj2 (proj2 (proj1 (scheduleRefresh_timer Scenario.signed_in 840000)
                         eq_refl))).
Defined.

(** X25: the scheduler once tokens have been stored.  At any instant
    from the storing up to the expiry, it starts a refresh at once when
    60 seconds or less are left, and otherwise arms one timer for the
    time left less 60 seconds; so with a positive lifetime of 60 seconds
    or less every call before the expiry starts a refresh at once. *)
Theorem scheduleRefresh_after_store
    (tokens : TokenResponse) (w : World) (e t : Z) :
  expires_in tokens = Some e ->
  (0 < e)%Z ->
  (now w <= t < now w + e * 1000)%Z ->
  let left := (now w + e * 1000 - t)%Z in
  React.scheduleRefresh (at_time t (storeTokens tokens w))
  = (if (left <=? 60000)%Z then React.RefreshNow
     else React.RefreshIn (Some (left - 60000)%Z))
  /\ ((e <= 60)%Z ->
      React.scheduleRefresh (at_time t (storeTokens tokens w)) = React.RefreshNow).
Proof.
  intros He Hpos Ht. cbn zeta.
  assert (KEY_ACCESS_TOKEN <> KEY_EXPIRES_AT /\ KEY_REFRESH_TOKEN <> KEY_EXPIRES_AT
          /\ KEY_ID_TOKEN <> KEY_EXPIRES_AT)
    as (? & ? & ?) by (repeat split; discriminate).
  assert (getItem KEY_EXPIRES_AT (at_time t (storeTokens tokens w))
          = Some (of_int (now w + e * 1000))) as Hget.
  { change (getItem KEY_EXPIRES_AT (at_time t (storeTokens tokens w)))
      with (getItem KEY_EXPIRES_AT (storeTokens tokens w)).
    unfold storeTokens. rewrite He.
    destruct (Z.eqb_spec e 0) as [|_]; [lia|].
    rewrite getItem_setItem_eq. do 3 f_equal.
    repeat match goal with
           | |- context [if ?x then _ else _] => destruct x
           end; reflexivity. }
  assert (React.scheduleRefresh (at_time t (storeTokens tokens w))
          = (if (now w + e * 1000 - t <=? 60000)%Z then React.RefreshNow
             else React.RefreshIn (Some (now w + e * 1000 - t - 60000)%Z))) as Hplan.
  { unfold React.scheduleRefresh, isTokenExpired.
    change React.STORAGE_EXPIRES_KEY with KEY_EXPIRES_AT.
    rewrite Hget, truthy_of_int. cbn [negb of_value now at_time].
    rewrite to_number_of_int.
    destruct (Z.leb_spec (now w + e * 1000) t); [lia|].
    destruct (Z.leb_spec (now w + e * 1000 - t - 60000) 0),
      (Z.leb_spec (now w + e * 1000 - t) 60000); try lia; reflexivity. }
  split; [exact Hplan|].
  intros Hshort. rewrite Hplan.
  destruct (Z.leb_spec (now w + e * 1000 - t) 60000); [reflexivity | lia].
Qed.

Lemma scheduleRefresh_after_store_witness :
  React.scheduleRefresh
    (at_time 1700000010000 (storeTokens Scenario.short_lived Scenario.signed_in))
  = React.RefreshNow
  /\ React.scheduleRefresh
       (at_time 1700000000000 (storeTokens Demo.tokens Scenario.signed_in))
     = React.RefreshIn (Some 3540000%Z).
Proof.
  assert (0 < 30 /\ 0 < 3600 /\ 30 <= 60)%Z as (H30 & H3600 & Hshort) by lia.
  assert (now Scenario.signed_in <= 1700000010000
          < now Scenario.signed_in + 30 * 1000)%Z as Ht1 by (cbn; lia).
  assert (now Scenario.signed_in <= 1700000000000
          < now Scenario.signed_in + 3600 * 1000)%Z as Ht2 by (cbn; lia).
  split.
  - exact (proj2 (scheduleRefresh_after_store Scenario.short_lived Scenario.signed_in
                    30 1700000010000 eq_refl H30 Ht1) Hshort).
  - exact (proj1 (scheduleRefresh_after_store Demo.tokens Scenario.signed_in
                    3600 1700000000000 eq_refl H3600 Ht2)).
Defined.

End CallersFurther.
